(** * FreeCut backend: the compose-export job orchestrator

    A shallow embedding of the compose-export endpoints of
    [src/backend/main.py] (lines 968-1018 and 1268-1660): the job record,
    the process-wide job table, the ordered frame buffer that feeds the
    encoder's standard input, finalize with its audio-mux pass, progress
    queries, download and cancel.

    Conventions of the embedding.
    - Every request handler is a function from the request (together with
      what the environment decides during the call: subprocess exit codes,
      timeouts, a wait that raises, files left behind by a subprocess) and the server state to
      a response and the next server state.  A handler runs to completion
      before the next one starts.
    - Python [int] is [Z]; [bytes] is a list of bytes; [dict] is a [gmap];
      the clock is an integer number of seconds; the two [float] fields
      ([progress], [encoder_fps]) are exact rationals.
    - [os.path] is the POSIX flavour. *)

From Stdlib Require Import ZArith QArith Qminmax Ascii String List Sorting.Permutation.
From stdpp Require Import base tactics option list gmap strings sorting fin_maps.

Local Open Scope string_scope.
Local Open Scope Z_scope.

(** ** Bytes *)

Definition bytes := list Byte.byte.

(** [len(b)] *)
Definition len (b : bytes) : Z := Z.of_nat (length b).

(** ** [os.path] on POSIX path strings *)

Module posixpath.

Fixpoint rfind_from (c : ascii) (s : string) (i acc : Z) : Z :=
  match s with
  | EmptyString => acc
  | String a s' => rfind_from c s' (i + 1) (if Ascii.eqb a c then i else acc)
  end.

(** [s.rfind(c)]: the last position of [c] in [s], or [-1]. *)
Definition rfind (c : ascii) (s : string) : Z := rfind_from c s 0 (-1).

(** [s[:i]] and [s[i:]] for [0 <= i]. *)
Definition take (i : Z) (s : string) : string := substring 0 (Z.to_nat i) s.
Definition drop (i : Z) (s : string) : string :=
  substring (Z.to_nat i) (String.length s - Z.to_nat i) s.

Fixpoint all_char (c : ascii) (s : string) : bool :=
  match s with
  | EmptyString => true
  | String a s' => Ascii.eqb a c && all_char c s'
  end.

Fixpoint lstrip (c : ascii) (s : string) : string :=
  match s with
  | EmptyString => EmptyString
  | String a s' => if Ascii.eqb a c then lstrip c s' else s
  end.

Definition rstrip (c : ascii) (s : string) : string :=
  String.rev (lstrip c (String.rev s)).

Definition sep : ascii := "/"%char.
Definition extsep : ascii := "."%char.

(** [os.path.dirname] *)
Definition dirname (p : string) : string :=
  let i := rfind sep p + 1 in
  let head := take i p in
  if all_char sep head then head else rstrip sep head.

(** [os.path.splitext(p)[1]]: the extension starts at the last dot of the
    last component, unless that component consists of leading dots up to
    it. *)
Definition splitext_ext (p : string) : string :=
  let sepIndex := rfind sep p in
  let dotIndex := rfind extsep p in
  if sepIndex <? dotIndex then
    let stem := substring (Z.to_nat (sepIndex + 1))
                          (Z.to_nat (dotIndex - (sepIndex + 1))) p in
    if all_char extsep stem then "" else drop dotIndex p
  else "".

Definition endswith_sep (p : string) : bool :=
  match String.rev p with
  | String a _ => Ascii.eqb a sep
  | EmptyString => false
  end.

Definition startswith_sep (p : string) : bool :=
  match p with
  | String a _ => Ascii.eqb a sep
  | EmptyString => false
  end.

(** [os.path.join(a, b)] *)
Definition join (a b : string) : string :=
  if startswith_sep b then b
  else if (String.eqb a "" || endswith_sep a)%bool then (a ++ b)%string
  else (a ++ "/" ++ b)%string.

End posixpath.

(** ** The job record (lines 968-992) *)

(** [status: str  # "ready", "encoding", "finalizing", "done", "error", "cancelled"] *)
Inductive JobStatus :=
| st_ready | st_encoding | st_finalizing | st_done | st_error | st_cancelled.

#[global] Instance JobStatus_eq_dec : EqDecision JobStatus.
Proof. solve_decision. Defined.

(** The terminal states, as [_cleanup_old_jobs] lists them. *)
Definition is_terminal (s : JobStatus) : bool :=
  match s with
  | st_done | st_error | st_cancelled => true
  | _ => false
  end.

(** The messages stored in [job.error]. *)
Inductive JobError :=
| err_write_frame (n : Z)                    (* "Failed to write frame {n}: {e}" *)
| err_ffmpeg_exit (code : Z) (tail : string) (* "FFmpeg exited with code {code}: {tail}" *)
| err_ffmpeg_timeout.                        (* "FFmpeg timeout (120s)" *)

(** [process.stdin], an asyncio stream writer on the encoder's input pipe.
    [sw_written] is the log of the chunks handed to the encoder, oldest
    first.  [sw_capacity] is the environment's say on when the pipe breaks:
    the number of writes it still takes ([None]: it never breaks). *)
Record StreamWriter := {
  sw_written : list bytes;
  sw_capacity : option nat;
  sw_closed : bool;
}.

(** [asyncio.subprocess.Process]: [stdin] is [None] when the process was
    started without an input pipe; [terminated] records a [terminate()]
    call. *)
Record Process := {
  stdin : option StreamWriter;
  returncode : option Z;
  terminated : bool;
}.

Record ComposeExportJob := {
  job_id : string;
  width : Z;
  height : Z;
  fps : Z;
  total_frames : Z;
  codec : string;
  quality : string;
  container : string;
  video_bitrate : option Z;
  audio_bitrate : option Z;
  output_path : string;
  audio_path : option string;
  process : option Process;
  frames_received : Z;
  status : JobStatus;
  error : option JobError;
  created_at : Z;
  frame_buffer : gmap Z bytes;
  next_frame_to_write : Z;
  encoder_fps : Q;
}.

(** Field assignments [job.f = v]. *)
Definition set_audio_path (v : option string) (j : ComposeExportJob) :=
  {| job_id := job_id j; width := width j; height := height j; fps := fps j;
     total_frames := total_frames j; codec := codec j; quality := quality j;
     container := container j; video_bitrate := video_bitrate j;
     audio_bitrate := audio_bitrate j; output_path := output_path j;
     audio_path := v; process := process j;
     frames_received := frames_received j; status := status j;
     error := error j; created_at := created_at j;
     frame_buffer := frame_buffer j;
     next_frame_to_write := next_frame_to_write j;
     encoder_fps := encoder_fps j |}.

Definition set_process (v : option Process) (j : ComposeExportJob) :=
  {| job_id := job_id j; width := width j; height := height j; fps := fps j;
     total_frames := total_frames j; codec := codec j; quality := quality j;
     container := container j; video_bitrate := video_bitrate j;
     audio_bitrate := audio_bitrate j; output_path := output_path j;
     audio_path := audio_path j; process := v;
     frames_received := frames_received j; status := status j;
     error := error j; created_at := created_at j;
     frame_buffer := frame_buffer j;
     next_frame_to_write := next_frame_to_write j;
     encoder_fps := encoder_fps j |}.

Definition set_frames_received (v : Z) (j : ComposeExportJob) :=
  {| job_id := job_id j; width := width j; height := height j; fps := fps j;
     total_frames := total_frames j; codec := codec j; quality := quality j;
     container := container j; video_bitrate := video_bitrate j;
     audio_bitrate := audio_bitrate j; output_path := output_path j;
     audio_path := audio_path j; process := process j;
     frames_received := v; status := status j;
     error := error j; created_at := created_at j;
     frame_buffer := frame_buffer j;
     next_frame_to_write := next_frame_to_write j;
     encoder_fps := encoder_fps j |}.

Definition set_status (v : JobStatus) (j : ComposeExportJob) :=
  {| job_id := job_id j; width := width j; height := height j; fps := fps j;
     total_frames := total_frames j; codec := codec j; quality := quality j;
     container := container j; video_bitrate := video_bitrate j;
     audio_bitrate := audio_bitrate j; output_path := output_path j;
     audio_path := audio_path j; process := process j;
     frames_received := frames_received j; status := v;
     error := error j; created_at := created_at j;
     frame_buffer := frame_buffer j;
     next_frame_to_write := next_frame_to_write j;
     encoder_fps := encoder_fps j |}.

Definition set_error (v : option JobError) (j : ComposeExportJob) :=
  {| job_id := job_id j; width := width j; height := height j; fps := fps j;
     total_frames := total_frames j; codec := codec j; quality := quality j;
     container := container j; video_bitrate := video_bitrate j;
     audio_bitrate := audio_bitrate j; output_path := output_path j;
     audio_path := audio_path j; process := process j;
     frames_received := frames_received j; status := status j;
     error := v; created_at := created_at j;
     frame_buffer := frame_buffer j;
     next_frame_to_write := next_frame_to_write j;
     encoder_fps := encoder_fps j |}.

Definition set_frame_buffer (v : gmap Z bytes) (j : ComposeExportJob) :=
  {| job_id := job_id j; width := width j; height := height j; fps := fps j;
     total_frames := total_frames j; codec := codec j; quality := quality j;
     container := container j; video_bitrate := video_bitrate j;
     audio_bitrate := audio_bitrate j; output_path := output_path j;
     audio_path := audio_path j; process := process j;
     frames_received := frames_received j; status := status j;
     error := error j; created_at := created_at j;
     frame_buffer := v;
     next_frame_to_write := next_frame_to_write j;
     encoder_fps := encoder_fps j |}.

Definition set_next_frame_to_write (v : Z) (j : ComposeExportJob) :=
  {| job_id := job_id j; width := width j; height := height j; fps := fps j;
     total_frames := total_frames j; codec := codec j; quality := quality j;
     container := container j; video_bitrate := video_bitrate j;
     audio_bitrate := audio_bitrate j; output_path := output_path j;
     audio_path := audio_path j; process := process j;
     frames_received := frames_received j; status := status j;
     error := error j; created_at := created_at j;
     frame_buffer := frame_buffer j;
     next_frame_to_write := v;
     encoder_fps := encoder_fps j |}.

(** ** The server state *)

(** [compose_jobs] is the module-level job table (line 996); [files] is the
    part of the file system the handlers touch, path to content. *)
Record State := {
  compose_jobs : gmap string ComposeExportJob;
  files : gmap string bytes;
}.

Definition COMPOSE_JOB_MAX_AGE : Z := 3600.

(** [compose_jobs[jid] = job], also the write-back of a job mutated in
    place. *)
Definition put_job (jid : string) (j : ComposeExportJob) (st : State) : State :=
  {| compose_jobs := <[jid := j]> (compose_jobs st); files := files st |}.

Definition set_files (f : gmap string bytes) (st : State) : State :=
  {| compose_jobs := compose_jobs st; files := f |}.

(** [os.path.exists(path)] *)
Definition exists_file (path : string) (f : gmap string bytes) : bool :=
  bool_decide (is_Some (f !! path)).

(** ** Responses *)

Inductive ApiError :=
| e_invalid_job_id                       (* "Invalid jobId" *)
| e_not_accepting_frames (s : JobStatus) (* "Job not accepting frames (status: ...)" *)
| e_missing_frame_data                   (* "Missing frame data" *)
| e_process_not_available                (* "FFmpeg process not available" *)
| e_invalid_base64                       (* "Invalid base64 data: ..." *)
| e_size_mismatch (got expected : Z)     (* "Frame data size mismatch: ..." *)
| e_job_error (e : JobError)             (* the text of [job.error] *)
| e_not_in_encoding_state (s : JobStatus)(* "Job not in encoding state (status: ...)" *)
| e_export_not_complete (s : JobStatus)  (* "Export not complete (status: ...)" *)
| e_output_not_found                     (* "Output file not found" *)
| e_total_frames                         (* "totalFrames must be > 0" *)
| e_ffmpeg_not_available                 (* "FFmpeg not available" *)
| e_failed_to_start.                     (* "Failed to start FFmpeg: ..." *)

Inductive Response :=
| JSONResponse (e : ApiError) (status_code : Z)
| r_compose (jobId : string) (st : JobStatus) (outputPath : string)
| r_frame (framesReceived : Z)
| r_audio (audioSize : Z)
| r_finalize (fileSize : Z) (outputPath : string)
| r_progress (phase : JobStatus) (progress : Q) (framesReceived totalFrames : Z)
             (encoderFps : Q)
| r_download (path media_type filename : string)
| r_cancel
| r_unhandled.  (* an exception left the handler: the framework answers 500 *)

(** ** Writing to the encoder's standard input *)

(** [stdin.write(data)] (with [await stdin.drain()] in the frame handler):
    [None] when it raises. *)
Definition writer_write (data : bytes) (w : StreamWriter) : option StreamWriter :=
  if sw_closed w then None
  else match sw_capacity w with
       | Some O => None
       | Some (S k) =>
           Some {| sw_written := sw_written w ++ [data];
                   sw_capacity := Some k; sw_closed := false |}
       | None =>
           Some {| sw_written := sw_written w ++ [data];
                   sw_capacity := None; sw_closed := false |}
       end.

Definition set_stdin (w : option StreamWriter) (p : Process) : Process :=
  {| stdin := w; returncode := returncode p; terminated := terminated p |}.

(** [job.process.stdin.write(data)]; [None] when it raises, which includes
    the attribute errors on a missing process or pipe. *)
Definition stdin_write (data : bytes) (j : ComposeExportJob) : option ComposeExportJob :=
  p ← process j;
  w ← stdin p;
  w' ← writer_write data w;
  Some (set_process (Some (set_stdin (Some w') p)) j).

(** The chunks the encoder has been given, and their concatenation. *)
Definition stdin_log (j : ComposeExportJob) : list bytes :=
  match process j with
  | Some p => match stdin p with Some w => sw_written w | None => [] end
  | None => []
  end.

Definition stdin_bytes (j : ComposeExportJob) : bytes := concat (stdin_log j).

(** ** [ffmpeg_export_frame] (lines 1394-1444) *)

(** The loop of lines 1433-1442:
    [while job.next_frame_to_write in job.frame_buffer: pop, write, advance].
    Each turn removes one entry of the buffer, so the loop makes at most
    [size frame_buffer] turns; the handler calls it with that bound.  The
    boolean tells whether a write raised; the loop then stops with the entry
    already popped and the counter not advanced. *)
Fixpoint write_sequential_frames (fuel : nat) (job : ComposeExportJob)
  : ComposeExportJob * bool :=
  match fuel with
  | O => (job, false)
  | S fuel' =>
      match frame_buffer job !! next_frame_to_write job with
      | None => (job, false)
      | Some data =>
          let job1 :=
            set_frame_buffer (delete (next_frame_to_write job) (frame_buffer job)) job in
          match stdin_write data job1 with
          | None =>
              (set_error (Some (err_write_frame (next_frame_to_write job1)))
                         (set_status st_error job1), true)
          | Some job2 =>
              write_sequential_frames fuel'
                (set_next_frame_to_write (next_frame_to_write job2 + 1) job2)
          end
      end
  end.

(** The [with job.lock:] block of lines 1428-1442. *)
Definition buffer_and_write (frame_index : Z) (frame_data : bytes)
    (job : ComposeExportJob) : ComposeExportJob * bool :=
  let job1 := set_frame_buffer (<[frame_index := frame_data]> (frame_buffer job)) job in
  let job2 := set_frames_received (frames_received job1 + 1) job1 in
  write_sequential_frames (size (frame_buffer job2)) job2.

(** What [body.get("data")] and [base64.b64decode] make of the request:
    absent or empty, not decodable, or decoded to some bytes. *)
Inductive FrameData :=
| data_missing
| data_invalid_base64
| data_decoded (frame_data : bytes).

Record FrameRequest := {
  fr_jobId : option string;   (* body.get("jobId") *)
  fr_frameIndex : Z;          (* body.get("frameIndex", 0) *)
  fr_data : FrameData;
}.

(** [if not job_id or job_id not in compose_jobs: ... else job = compose_jobs[job_id]] *)
Definition find_job (jid : option string) (st : State)
  : option (string * ComposeExportJob) :=
  match jid with
  | None => None
  | Some s => if String.eqb s "" then None
              else match compose_jobs st !! s with
                   | Some j => Some (s, j)
                   | None => None
                   end
  end.

Definition process_has_stdin (j : ComposeExportJob) : bool :=
  match process j with
  | Some p => match stdin p with Some _ => true | None => false end
  | None => false
  end.

Definition expected_size (j : ComposeExportJob) : Z := width j * height j * 4.

Definition ffmpeg_export_frame (req : FrameRequest) (st : State) : Response * State :=
  match find_job (fr_jobId req) st with
  | None => (JSONResponse e_invalid_job_id 400, st)
  | Some (jid, job) =>
      if negb (bool_decide (status job = st_encoding)) then
        (JSONResponse (e_not_accepting_frames (status job)) 400, st)
      else
        match fr_data req with
        | data_missing => (JSONResponse e_missing_frame_data 400, st)
        | data_invalid_base64 =>
            if negb (process_has_stdin job) then
              (JSONResponse e_process_not_available 500, st)
            else (JSONResponse e_invalid_base64 400, st)
        | data_decoded frame_data =>
            if negb (process_has_stdin job) then
              (JSONResponse e_process_not_available 500, st)
            else if negb (len frame_data =? expected_size job) then
              (JSONResponse (e_size_mismatch (len frame_data) (expected_size job)) 400, st)
            else
              match buffer_and_write (fr_frameIndex req) frame_data job with
              | (job', true) =>
                  (JSONResponse
                     (e_job_error (err_write_frame (next_frame_to_write job'))) 500,
                   put_job jid job' st)
              | (job', false) =>
                  (r_frame (frames_received job'), put_job jid job' st)
              end
        end
  end.

(** ** [ffmpeg_export_audio] (lines 1447-1468) *)

Definition ffmpeg_export_audio (jobId : option string) (audio_data : bytes)
    (st : State) : Response * State :=
  match find_job jobId st with
  | None => (JSONResponse e_invalid_job_id 400, st)
  | Some (jid, job) =>
      let audio_dir := posixpath.dirname (output_path job) in
      let audio_path := posixpath.join audio_dir ("audio_" ++ jid ++ ".wav")%string in
      let st1 := set_files (<[audio_path := audio_data]> (files st)) st in
      (r_audio (len audio_data), put_job jid (set_audio_path (Some audio_path) job) st1)
  end.

(** ** [ffmpeg_export_progress] (lines 1592-1610) *)

(** [min(job.frames_received / job.total_frames, 1.0)], for
    [job.total_frames > 0]. *)
Definition progress_of (j : ComposeExportJob) : Q :=
  if 0 <? total_frames j then
    Qmin (Qmake (frames_received j) (Z.to_pos (total_frames j))) 1%Q
  else 0%Q.

Definition ffmpeg_export_progress (jobId : string) (st : State) : Response * State :=
  match compose_jobs st !! jobId with
  | None => (JSONResponse e_invalid_job_id 404, st)
  | Some job =>
      (r_progress (status job) (progress_of job) (frames_received job)
                  (total_frames job) (encoder_fps job), st)
  end.

(** ** [ffmpeg_export_download] (lines 1613-1640) *)

Definition content_type_of (container : string) : string :=
  if String.eqb container "mp4" then "video/mp4"
  else if String.eqb container "webm" then "video/webm"
  else if String.eqb container "mov" then "video/quicktime"
  else if String.eqb container "mkv" then "video/x-matroska"
  else "video/mp4".

Definition ffmpeg_export_download (jobId : string) (st : State) : Response * State :=
  match compose_jobs st !! jobId with
  | None => (JSONResponse e_invalid_job_id 404, st)
  | Some job =>
      if negb (bool_decide (status job = st_done)) then
        (JSONResponse (e_export_not_complete (status job)) 400, st)
      else if negb (exists_file (output_path job) (files st)) then
        (JSONResponse e_output_not_found 404, st)
      else
        (r_download (output_path job) (content_type_of (container job))
                    ("export." ++ container job)%string, st)
  end.

(** ** [_cleanup_job_files] (lines 1011-1018) and [ffmpeg_export_cancel]
    (lines 1643-1660) *)

(** [if path and os.path.exists(path): os.unlink(path)] *)
Definition unlink_if_exists (path : option string) (f : gmap string bytes)
  : gmap string bytes :=
  match path with
  | None => f
  | Some p => if String.eqb p "" then f
              else if exists_file p f then delete p f else f
  end.

Definition _cleanup_job_files (job : ComposeExportJob) (f : gmap string bytes)
  : gmap string bytes :=
  unlink_if_exists (audio_path job) (unlink_if_exists (Some (output_path job)) f).

(** [process.terminate()] *)
Definition terminate (p : Process) : Process :=
  {| stdin := stdin p; returncode := returncode p; terminated := true |}.

Definition ffmpeg_export_cancel (jobId : string) (st : State) : Response * State :=
  match compose_jobs st !! jobId with
  | None => (JSONResponse e_invalid_job_id 404, st)
  | Some job =>
      let job1 :=
        match process job with
        | Some p =>
            match returncode p with
            | None => set_process (Some (terminate p)) job
            | Some _ => job
            end
        | None => job
        end in
      let job2 := set_status st_cancelled job1 in
      (r_cancel, set_files (_cleanup_job_files job2 (files st)) (put_job jobId job2 st))
  end.

(** ** [ffmpeg_export_finalize] (lines 1471-1589) *)

(** How the wait of line 1507 ends.  Compose has started
    [_read_compose_progress] (line 1363), which sits in
    [stdout.readline()] (line 1380) until the encoder closes its standard
    output; [communicate()] reads the same stream.
    - [wait_exited code tail]: the encoder's output stream is at its end,
      [communicate()] returns and the process has exited with [code],
      [tail] being the end of its diagnostics;
    - [wait_timeout]: the stream is at its end but the process does not
      exit within the 120 s: [asyncio.TimeoutError];
    - [wait_raised]: the progress reader is still waiting on the stream,
      so the read of [communicate()] raises [RuntimeError]; line 1513
      catches only the timeout, and the exception leaves the handler. *)
Inductive WaitResult :=
| wait_exited (code : Z) (tail : string)
| wait_timeout
| wait_raised.

(** What the environment decides during one finalize call.
    - [fe_encoder_exit]: how the wait for the encoder ends;
    - [fe_video_file]: the content the encoder has left at the video-only
      path when the wait ends ([None]: no such file);
    - [fe_mux_exit]: exit code of the mux process, or [None] when the 60 s
      wait times out;
    - [fe_mux_output]: what the mux process has written at the output path
      ([None]: it has not touched it). *)
Record FinalizeEnv := {
  fe_encoder_exit : WaitResult;
  fe_video_file : option bytes;
  fe_mux_exit : option Z;
  fe_mux_output : option bytes;
}.

(** The flush loop of lines 1489-1496: as the loop of the frame handler,
    but a write that raises is passed over and the counter advances. *)
Fixpoint flush_frames (fuel : nat) (job : ComposeExportJob) : ComposeExportJob :=
  match fuel with
  | O => job
  | S fuel' =>
      match frame_buffer job !! next_frame_to_write job with
      | None => job
      | Some data =>
          let job1 :=
            set_frame_buffer (delete (next_frame_to_write job) (frame_buffer job)) job in
          let job2 :=
            if process_has_stdin job1 then
              match stdin_write data job1 with
              | Some j => j
              | None => job1
              end
            else job1 in
          flush_frames fuel'
            (set_next_frame_to_write (next_frame_to_write job2 + 1) job2)
      end
  end.

(** [job.process.stdin.close()], when there is a process with a pipe. *)
Definition close_stdin (job : ComposeExportJob) : ComposeExportJob :=
  match process job with
  | Some p =>
      match stdin p with
      | Some w =>
          let w' := {| sw_written := sw_written w; sw_capacity := sw_capacity w;
                       sw_closed := true |} in
          set_process (Some (set_stdin (Some w') p)) job
      | None => job
      end
  | None => job
  end.

Definition set_returncode (c : option Z) (p : Process) : Process :=
  {| stdin := stdin p; returncode := c; terminated := terminated p |}.

(** Lines 1520-1521. *)
Definition video_only_path (job : ComposeExportJob) : string :=
  let ext := posixpath.splitext_ext (output_path job) in
  posixpath.join (posixpath.dirname (output_path job))
                 ("video_" ++ job_id job ++ ext)%string.

(** [shutil.move(src, dst)] of a file that exists. *)
Definition move (src dst : string) (f : gmap string bytes) : gmap string bytes :=
  if String.eqb src dst then f
  else match f !! src with
       | Some b => <[dst := b]> (delete src f)
       | None => f
       end.

Definition file_left_by (path : string) (content : option bytes)
    (f : gmap string bytes) : gmap string bytes :=
  match content with
  | Some b => <[path := b]> f
  | None => delete path f
  end.

Definition file_written_by (path : string) (content : option bytes)
    (f : gmap string bytes) : gmap string bytes :=
  match content with
  | Some b => <[path := b]> f
  | None => f
  end.

(** [job.audio_path and os.path.exists(job.audio_path)] *)
Definition has_audio (job : ComposeExportJob) (f : gmap string bytes) : bool :=
  match audio_path job with
  | Some a => negb (String.eqb a "") && exists_file a f
  | None => false
  end.

(** Lines 1576-1589: size of the output, status, response. *)
Definition report_done (jid : string) (job : ComposeExportJob)
    (f : gmap string bytes) (st : State) : Response * State :=
  let file_size :=
    match f !! output_path job with
    | Some b => len b
    | None => 0
    end in
  (r_finalize file_size (output_path job),
   set_files f (put_job jid (set_status st_done job) st)).

Definition ffmpeg_export_finalize (jobId : option string) (env : FinalizeEnv)
    (st : State) : Response * State :=
  match find_job jobId st with
  | None => (JSONResponse e_invalid_job_id 400, st)
  | Some (jid, job0) =>
      if negb (bool_decide (status job0 = st_encoding)) then
        (JSONResponse (e_not_in_encoding_state (status job0)) 400, st)
      else
        let job1 := set_status st_finalizing job0 in
        let job2 := flush_frames (size (frame_buffer job1)) job1 in
        let job3 := close_stdin job2 in
        match process job3 with
        | None => (r_unhandled, put_job jid job3 st)
        | Some p =>
            let f1 := file_left_by (video_only_path job3) (fe_video_file env) (files st) in
            match fe_encoder_exit env with
            | wait_raised => (r_unhandled, set_files f1 (put_job jid job3 st))
            | wait_timeout =>
                let job4 :=
                  set_error (Some err_ffmpeg_timeout)
                    (set_status st_error (set_process (Some (terminate p)) job3)) in
                (JSONResponse (e_job_error err_ffmpeg_timeout) 500,
                 set_files f1 (put_job jid job4 st))
            | wait_exited code tail =>
                let job4 := set_process (Some (set_returncode (Some code) p)) job3 in
                if negb (code =? 0) then
                  let job5 :=
                    set_error (Some (err_ffmpeg_exit code tail))
                              (set_status st_error job4) in
                  (JSONResponse (e_job_error (err_ffmpeg_exit code tail)) 500,
                   set_files f1 (put_job jid job5 st))
                else
                  let video := video_only_path job4 in
                  if has_audio job4 f1 then
                    let f2 := file_written_by (output_path job4) (fe_mux_output env) f1 in
                    match fe_mux_exit env with
                    | None => (r_unhandled, set_files f2 (put_job jid job4 st))
                    | Some mux_code =>
                        if negb (mux_code =? 0) then
                          let f3 := if exists_file video f2
                                    then move video (output_path job4) f2 else f2 in
                          report_done jid job4 f3 st
                        else
                          let f3 := if exists_file video f2
                                    then delete video f2 else f2 in
                          report_done jid job4 f3 st
                    end
                  else
                    let f2 := if exists_file video f1
                              then move video (output_path job4) f1 else f1 in
                    report_done jid job4 f2 st
            end
        end
  end.

(** ** [_cleanup_old_jobs] (lines 1000-1008) and [ffmpeg_export_compose]
    (lines 1268-1371) *)

Definition is_stale (now : Z) (job : ComposeExportJob) : bool :=
  (COMPOSE_JOB_MAX_AGE <? now - created_at job) && is_terminal (status job).

(** [job = compose_jobs.pop(jid, None); if job: _cleanup_job_files(job)] *)
Definition reap (st : State) (jid : string) : State :=
  match compose_jobs st !! jid with
  | Some job =>
      {| compose_jobs := delete jid (compose_jobs st);
         files := _cleanup_job_files job (files st) |}
  | None => st
  end.

Definition _cleanup_old_jobs (now : Z) (st : State) : State :=
  let stale :=
    List.map fst
      (List.filter (fun e : string * ComposeExportJob => is_stale now (snd e))
                   (map_to_list (compose_jobs st))) in
  foldl reap st stale.

(** The body of the request after the defaults of [body.get]. *)
Record ComposeRequest := {
  cr_width : Z;
  cr_height : Z;
  cr_fps : Z;
  cr_totalFrames : Z;
  cr_codec : string;
  cr_quality : string;
  cr_container : string;
  cr_videoBitrate : option Z;
  cr_audioBitrate : option Z;
}.

(** What the environment decides during one compose call: the clock, the
    outcome of [check_ffmpeg()], the fresh uuid, the directory made by
    [tempfile.mkdtemp], and the encoder process ([None]: spawning raised). *)
Record ComposeEnv := {
  ce_now : Z;
  ce_ffmpeg_available : bool;
  ce_uuid : string;
  ce_output_dir : string;
  ce_process : option Process;
}.

Definition ext_of (container : string) : string :=
  if String.eqb container "mp4" then ".mp4"
  else if String.eqb container "webm" then ".webm"
  else if String.eqb container "mov" then ".mov"
  else if String.eqb container "mkv" then ".mkv"
  else ".mp4".

Definition ffmpeg_export_compose (req : ComposeRequest) (env : ComposeEnv)
    (st : State) : Response * State :=
  let st1 := _cleanup_old_jobs (ce_now env) st in
  if cr_totalFrames req <=? 0 then (JSONResponse e_total_frames 400, st1)
  else if negb (ce_ffmpeg_available env) then
    (JSONResponse e_ffmpeg_not_available 500, st1)
  else
    let ext := ext_of (cr_container req) in
    let jid := ce_uuid env in
    let out := posixpath.join (ce_output_dir env) ("export_" ++ jid ++ ext)%string in
    match ce_process env with
    | None => (JSONResponse e_failed_to_start 500, st1)
    | Some p =>
        let job :=
          {| job_id := jid; width := cr_width req; height := cr_height req;
             fps := cr_fps req; total_frames := cr_totalFrames req;
             codec := cr_codec req; quality := cr_quality req;
             container := cr_container req;
             video_bitrate := cr_videoBitrate req;
             audio_bitrate := cr_audioBitrate req;
             output_path := out; audio_path := None; process := Some p;
             frames_received := 0; status := st_encoding; error := None;
             created_at := ce_now env; frame_buffer := ∅;
             next_frame_to_write := 0; encoder_fps := 0%Q |} in
        (r_compose jid st_encoding out, put_job jid job st1)
    end.

(** ** Sequences of operations on the job table *)

Inductive Op :=
| op_frame (req : FrameRequest)
| op_audio (jobId : option string) (audio_data : bytes)
| op_finalize (jobId : option string) (env : FinalizeEnv)
| op_cancel (jobId : string)
| op_progress (jobId : string)
| op_download (jobId : string).

Definition step (o : Op) (st : State) : Response * State :=
  match o with
  | op_frame req => ffmpeg_export_frame req st
  | op_audio jid data => ffmpeg_export_audio jid data st
  | op_finalize jid env => ffmpeg_export_finalize jid env st
  | op_cancel jid => ffmpeg_export_cancel jid st
  | op_progress jid => ffmpeg_export_progress jid st
  | op_download jid => ffmpeg_export_download jid st
  end.

(** The responses, in order, and the final state. *)
Fixpoint run (ops : list Op) (st : State) : list Response * State :=
  match ops with
  | [] => ([], st)
  | o :: ops' =>
      let '(r, st1) := step o st in
      let '(rs, st2) := run ops' st1 in
      (r :: rs, st2)
  end.

(** A frame submission that decodes, for job [jid]. *)
Definition submission (jid : string) (s : Z * bytes) : Op :=
  op_frame {| fr_jobId := Some jid; fr_frameIndex := s.1; fr_data := data_decoded s.2 |}.

Definition accepted (r : Response) : Prop :=
  match r with
  | r_frame _ => True
  | _ => False
  end.

(** ** The claims of the specification, as it words them *)

(** "[progress] is [min(framesReceived / totalFrames, 1.0)] when
    [totalFrames > 0], else [0]". *)
Definition progress_spec (framesReceived totalFrames : Z) : Q :=
  if decide (0 < totalFrames) then
    Qmin (inject_Z framesReceived / inject_Z totalFrames) 1
  else 0%Q.

(** "the frames sorted by index" *)
Definition index_le (a b : Z * bytes) : Prop := a.1 ≤ b.1.

#[global] Instance index_le_dec : RelDecision index_le.
Proof. intros a b. unfold index_le. apply _. Defined.

Definition sort_by_index (subs : list (Z * bytes)) : list (Z * bytes) :=
  merge_sort index_le subs.

(** ** A concrete server, for examples *)

Module Sample.

Definition writer : StreamWriter :=
  {| sw_written := []; sw_capacity := None; sw_closed := false |}.

Definition encoder : Process :=
  {| stdin := Some writer; returncode := None; terminated := false |}.

(** The job of the scenario of section 8: 4x4 frames, three of them. *)
Definition request : ComposeRequest :=
  {| cr_width := 4; cr_height := 4; cr_fps := 30; cr_totalFrames := 3;
     cr_codec := "avc"; cr_quality := "high"; cr_container := "mp4";
     cr_videoBitrate := None; cr_audioBitrate := None |}.

Definition env : ComposeEnv :=
  {| ce_now := 1000; ce_ffmpeg_available := true; ce_uuid := "j1";
     ce_output_dir := "/tmp/freecut_export_ab"; ce_process := Some encoder |}.

Definition empty : State := {| compose_jobs := ∅; files := ∅ |}.

Definition job : ComposeExportJob :=
  {| job_id := "j1"; width := 4; height := 4; fps := 30; total_frames := 3;
     codec := "avc"; quality := "high"; container := "mp4";
     video_bitrate := None; audio_bitrate := None;
     output_path := "/tmp/freecut_export_ab/export_j1.mp4";
     audio_path := None; process := Some encoder;
     frames_received := 0; status := st_encoding; error := None;
     created_at := 1000; frame_buffer := ∅;
     next_frame_to_write := 0; encoder_fps := 0%Q |}.

(** The server after the job has been created. *)
Definition created : State := put_job "j1" job empty.

Definition out : string := "/tmp/freecut_export_ab/export_j1.mp4".
Definition video : string := "/tmp/freecut_export_ab/video_j1.mp4".
Definition audio : string := "/tmp/freecut_export_ab/audio_j1.wav".

(** A 64-byte RGBA frame filled with one byte. *)
Definition frame (b : Byte.byte) : bytes := repeat b 64.

Definition f0 : bytes := frame Byte.x00.
Definition f1 : bytes := frame Byte.x01.
Definition f2 : bytes := frame Byte.x02.

(** The encoder has closed its output stream, exits with 0 and leaves a
    two-byte video file. *)
Definition video_bytes : bytes := [Byte.x76; Byte.x31].

Definition encode_ok : FinalizeEnv :=
  {| fe_encoder_exit := wait_exited 0 ""; fe_video_file := Some video_bytes;
     fe_mux_exit := Some 0; fe_mux_output := None |}.


(** The mux process exits with 1 after writing one byte of output. *)
Definition mux_fails : FinalizeEnv :=
  {| fe_encoder_exit := wait_exited 0 ""; fe_video_file := Some video_bytes;
     fe_mux_exit := Some 1; fe_mux_output := Some [Byte.xff] |}.

(** A whole session: two frames out of order, a progress query, finalize,
    and a cancel after the job is done. *)
Definition session : list Op :=
  [submission "j1" (1, f1); submission "j1" (0, f0); op_progress "j1";
   op_finalize (Some "j1") encode_ok; op_cancel "j1"].

Definition the_job (st : State) : option ComposeExportJob :=
  compose_jobs st !! "j1".

(** The server after the job has been finalized without frames or audio,
    and the job as it is then. *)
Definition finished : State :=
  (ffmpeg_export_finalize (Some "j1") encode_ok created).2.

Definition done_job : ComposeExportJob := default job (the_job finished).

(** The server after an audio track has been submitted, and the job as it
    is then. *)
Definition with_audio : State :=
  (ffmpeg_export_audio (Some "j1") [Byte.x52; Byte.x49] created).2.

Definition audio_job : ComposeExportJob := default job (the_job with_audio).


End Sample.

(** ** Invariants and observations used in the proofs *)

(** Every buffered index is at or above the next index to write. *)
Definition buffer_ahead (job : ComposeExportJob) : Prop :=
  ∀ i d, frame_buffer job !! i = Some d → next_frame_to_write job ≤ i.

(** The loop has run to its end: the next index is not buffered. *)
Definition drained (job : ComposeExportJob) : Prop :=
  frame_buffer job !! next_frame_to_write job = None.

(** Two jobs agree on the frame buffer and on both counters. *)
Definition same_frames (j j' : ComposeExportJob) : Prop :=
  frame_buffer j' = frame_buffer j
  ∧ next_frame_to_write j' = next_frame_to_write j
  ∧ frames_received j' = frames_received j.

(** What one operation does to the job stored under [k], as far as buffer,
    counters and status go. *)
Inductive job_trans (k : string) (job job' : ComposeExportJob) : Op → Prop :=
| jt_same o :
    same_frames job job' → status job' = status job →
    job_trans k job job' o
| jt_frame req d b :
    fr_jobId req = Some k → fr_data req = data_decoded d →
    status job = st_encoding →
    buffer_and_write (fr_frameIndex req) d job = (job', b) →
    job_trans k job job' (op_frame req)
| jt_finalize jobId env :
    status job = st_encoding →
    same_frames (flush_frames (size (frame_buffer job)) (set_status st_finalizing job)) job' →
    status job' ≠ st_encoding →
    job_trans k job job' (op_finalize jobId env)
| jt_cancel :
    same_frames job job' → status job' = st_cancelled →
    job_trans k job job' (op_cancel k).

(** The payload submitted under index [i]; empty when there is none. *)
Definition payload_at (M : gmap Z bytes) (i : Z) : bytes :=
  match M !! i with
  | Some d => d
  | None => []
  end.

(** The reassembly invariant.  [M] maps every index of the submission
    sequence to its payload, [S] is the set of indices submitted so far and
    [log0] is what the encoder had been given before the sequence: the
    indices below the counter have all been submitted and written, in
    order, and the buffer holds the submitted indices from the counter
    on. *)
Definition reassembled (M : gmap Z bytes) (S : gset Z) (log0 : list bytes)
    (job : ComposeExportJob) : Prop :=
  0 ≤ next_frame_to_write job
  ∧ (∀ i, 0 ≤ i < next_frame_to_write job → i ∈ S)
  ∧ (∀ i, is_Some (frame_buffer job !! i) ↔ i ∈ S ∧ next_frame_to_write job ≤ i)
  ∧ (∀ i d, frame_buffer job !! i = Some d → M !! i = Some d)
  ∧ stdin_log job
    = (log0 ++ map (payload_at M) (seqZ 0 (next_frame_to_write job)))%list.

(** [j'] is [j] with, at most, another status and another process handle. *)
Definition only_status_and_process_differ (j j' : ComposeExportJob) : Prop :=
  j' = set_status (status j') (set_process (process j') j).

(** The encoder of the job is not running, or has been sent a terminate
    signal already. *)
Definition process_stopped (j : ComposeExportJob) : Prop :=
  match process j with
  | Some p => is_Some (returncode p) ∨ terminated p = true
  | None => True
  end.

(** Along a run from [st], every frame submitted for job [k] carries an
    index at or above the job's counter at the time of the submission. *)
Fixpoint submits_ahead (k : string) (ops : list Op) (st : State) : Prop :=
  match ops with
  | [] => True
  | o :: ops' =>
      (∀ req job, o = op_frame req → fr_jobId req = Some k →
                  compose_jobs st !! k = Some job →
                  next_frame_to_write job ≤ fr_frameIndex req)
      ∧ submits_ahead k ops' (step o st).2
  end.

(** The encoder's input pipe is open and the environment never breaks it. *)
Definition pipe_open (job : ComposeExportJob) : Prop :=
  ∃ p w, process job = Some p ∧ stdin p = Some w
         ∧ sw_closed w = false ∧ sw_capacity w = None.

From Stdlib Require DecimalString.

(** ** More concrete servers, for examples *)

Module Cases.

(** An encoder whose input pipe takes no write any more. *)
Definition broken_encoder : Process :=
  {| stdin := Some {| sw_written := []; sw_capacity := Some 0%nat; sw_closed := false |};
     returncode := None; terminated := false |}.

(** The server with the sample job on that encoder. *)
Definition broken : State :=
  put_job "j1" (set_process (Some broken_encoder) Sample.job) Sample.empty.

Definition broken_job : ComposeExportJob :=
  set_process (Some broken_encoder) Sample.job.

(** A frame of the wrong size for the sample job. *)
Definition short_frame : FrameRequest :=
  {| fr_jobId := Some "j1"; fr_frameIndex := 0;
     fr_data := data_decoded [Byte.x00; Byte.x01] |}.

Definition frame0 : FrameRequest :=
  {| fr_jobId := Some "j1"; fr_frameIndex := 0; fr_data := data_decoded Sample.f0 |}.

Definition frame2 : FrameRequest :=
  {| fr_jobId := Some "j1"; fr_frameIndex := 2; fr_data := data_decoded Sample.f2 |}.

End Cases.

Module Finals.

(** The mux process exits with 0 after writing a three-byte output. *)
Definition muxed : bytes := [Byte.x6d; Byte.x75; Byte.x78].

Definition mux_ok : FinalizeEnv :=
  {| fe_encoder_exit := wait_exited 0 ""; fe_video_file := Some Sample.video_bytes;
     fe_mux_exit := Some 0; fe_mux_output := Some muxed |}.

(** The encoder has closed its output stream and exits with 1. *)
Definition encode_fails : FinalizeEnv :=
  {| fe_encoder_exit := wait_exited 1 "Invalid data"; fe_video_file := None;
     fe_mux_exit := None; fe_mux_output := None |}.

(** The encoder has closed its output stream but does not exit within the
    120 s. *)
Definition encode_hangs : FinalizeEnv :=
  {| fe_encoder_exit := wait_timeout; fe_video_file := None;
     fe_mux_exit := None; fe_mux_output := None |}.

(** The encoder is still running with its output stream open when finalize
    waits for it: the progress reader holds the stream. *)
Definition encoder_running : FinalizeEnv :=
  {| fe_encoder_exit := wait_raised; fe_video_file := None;
     fe_mux_exit := None; fe_mux_output := None |}.

(** The server with frame 2 buffered behind the missing frames 0 and 1. *)
Definition gapped : State := (ffmpeg_export_frame Cases.frame2 Sample.created).2.

Definition gapped_job : ComposeExportJob := default Sample.job (Sample.the_job gapped).

End Finals.

(** ** The fields that are set at creation *)

(** Two jobs agree on every field that is given at creation and describes
    the export: identifier, geometry, frame count, codec settings, output
    path and creation time. *)
Definition same_settings (j j' : ComposeExportJob) : Prop :=
  job_id j' = job_id j
  ∧ width j' = width j
  ∧ height j' = height j
  ∧ fps j' = fps j
  ∧ total_frames j' = total_frames j
  ∧ codec j' = codec j
  ∧ quality j' = quality j
  ∧ container j' = container j
  ∧ video_bitrate j' = video_bitrate j
  ∧ audio_bitrate j' = audio_bitrate j
  ∧ output_path j' = output_path j
  ∧ created_at j' = created_at j.

(** ** Encoder selection and encoder arguments (lines 29-33, 124-169,
    322-327, 1021-1068, 1303-1322) *)

Module Encoding.

(** [HWAccelInfo] (lines 29-33). *)
Record HWAccelInfo := {
  encoder : string;
  hwaccel : string;
  available : bool;
}.

(** [HWAccelInfo()] with its defaults. *)
Definition no_hw : HWAccelInfo :=
  {| encoder := "libx264"; hwaccel := ""; available := false |}.

(** [needle in hay] on strings. *)
Fixpoint contains (needle hay : string) : bool :=
  String.prefix needle hay
  || match hay with
     | EmptyString => false
     | String _ hay' => contains needle hay'
     end.

(** [str(n)] for an [int]. *)
Definition str (n : Z) : string := DecimalString.NilZero.string_of_int (Z.to_int n).

(** The candidate encoders of [detect_hardware_acceleration], by
    [platform.system()], each with its hwaccel name. *)
Definition candidates (system : string) : list (string * string) :=
  if String.eqb system "Windows" then
    [("h264_nvenc", "cuda"); ("h264_amf", "d3d11va"); ("h264_qsv", "qsv")]
  else if String.eqb system "Darwin" then
    [("h264_videotoolbox", "videotoolbox")]
  else
    [("h264_nvenc", "cuda"); ("h264_vaapi", "vaapi")].

(** [test_encoder] (lines 158-169).  [probe] is what running
    [ffmpeg -hide_banner -encoders] gives: its standard output, or [None]
    when starting it or waiting for it raises. *)
Definition test_encoder (probe : option string) (enc : string) : bool :=
  match probe with
  | Some stdout => contains enc stdout
  | None => false
  end.

(** The loop of lines 147-155; [probes i] is the outcome of the [i]-th run
    of the probe command. *)
Fixpoint first_available (cands : list (string * string))
    (probes : nat → option string) (i : nat) : HWAccelInfo :=
  match cands with
  | [] => {| encoder := "libx264"; hwaccel := ""; available := false |}
  | (enc, accel) :: rest =>
      if test_encoder (probes i) enc then
        {| encoder := enc; hwaccel := accel; available := true |}
      else first_available rest probes (S i)
  end.

Definition detect_hardware_acceleration (system : string)
    (probes : nat → option string) : HWAccelInfo :=
  first_available (candidates system) probes 0.

(** One row of [CRF_MAP] (lines 322-327). *)
Record CrfRow := {
  crf_libx264 : string;
  crf_libx265 : string;
  crf_libvpx : string;
  crf_hw : string;
}.

Definition CRF_MAP : gmap string CrfRow :=
  list_to_map
    [("low", {| crf_libx264 := "28"; crf_libx265 := "32"; crf_libvpx := "35"; crf_hw := "30" |});
     ("medium", {| crf_libx264 := "23"; crf_libx265 := "28"; crf_libvpx := "30"; crf_hw := "25" |});
     ("high", {| crf_libx264 := "18"; crf_libx265 := "24"; crf_libvpx := "23"; crf_hw := "20" |});
     ("very_high", {| crf_libx264 := "15"; crf_libx265 := "20"; crf_libvpx := "18"; crf_hw := "15" |})].

(** [CRF_MAP["medium"]] *)
Definition CRF_medium : CrfRow :=
  {| crf_libx264 := "23"; crf_libx265 := "28"; crf_libvpx := "30"; crf_hw := "25" |}.

(** The [codec_map] of lines 1029-1035. *)
Definition codec_map : gmap string string :=
  list_to_map
    [("avc", "libx264"); ("hevc", "libx265"); ("vp8", "libvpx");
     ("vp9", "libvpx-vp9"); ("av1", "libaom-av1")].

(** [if video_bitrate:] for an optional [int]. *)
Definition bitrate_given (video_bitrate : option Z) : bool :=
  match video_bitrate with
  | Some b => negb (b =? 0)
  | None => false
  end.

(** [_get_encoder_args] (lines 1021-1068). *)
Definition _get_encoder_args (codec quality container : string)
    (video_bitrate : option Z) (hw_info : HWAccelInfo) : list string :=
  let use_hw := available hw_info in
  let enc0 := if use_hw then encoder hw_info else "libx264" in
  let enc := if negb use_hw then default "libx264" (codec_map !! codec) else enc0 in
  let crf := default CRF_medium (CRF_MAP !! quality) in
  let args := ["-c:v"; enc] in
  let args :=
    if bitrate_given video_bitrate
    then (args ++ ["-b:v"; str (default 0 video_bitrate)])%list
    else args in
  let args :=
    if String.eqb enc "libx264" then
      (args ++ ["-crf"; crf_libx264 crf; "-preset"; "fast"; "-pix_fmt"; "yuv420p"])%list
    else if String.eqb enc "libx265" then
      (args ++ ["-crf"; crf_libx265 crf; "-preset"; "fast"; "-pix_fmt"; "yuv420p"])%list
    else if contains "nvenc" enc then
      if bitrate_given video_bitrate then
        (args ++ ["-preset"; "p4"; "-tune"; "hq"; "-pix_fmt"; "yuv420p"])%list
      else
        (args ++ ["-cq"; crf_hw crf; "-preset"; "p4"; "-tune"; "hq";
                  "-pix_fmt"; "yuv420p"])%list
    else if contains "videotoolbox" enc then
      (args ++ ["-q:v"; crf_hw crf; "-pix_fmt"; "yuv420p"])%list
    else if contains "amf" enc then
      (args ++ ["-quality"; "balanced"; "-pix_fmt"; "yuv420p"])%list
    else if contains "qsv" enc then
      (args ++ ["-global_quality"; crf_hw crf; "-preset"; "faster";
                "-pix_fmt"; "yuv420p"])%list
    else if contains "libvpx" enc then
      (args ++ ["-crf"; crf_libvpx crf; "-b:v"; "0"; "-pix_fmt"; "yuv420p"])%list
    else
      (args ++ ["-pix_fmt"; "yuv420p"])%list in
  if String.eqb container "mp4" then (args ++ ["-movflags"; "+faststart"])%list
  else args.

(** The encoder command line of [ffmpeg_export_compose] (lines 1303-1322):
    raw RGBA frames from standard input, the encoder arguments, no audio,
    progress on standard output, and the video-only file as output. *)
Definition compose_video_only_path (output_dir jid : string) (container : string) : string :=
  posixpath.join output_dir ("video_" ++ jid ++ ext_of container)%string.

Definition compose_output_path (output_dir jid : string) (container : string) : string :=
  posixpath.join output_dir ("export_" ++ jid ++ ext_of container)%string.

Definition compose_args (ffmpeg_path : string) (req : ComposeRequest)
    (hw_info : HWAccelInfo) (output_dir jid : string) : list string :=
  ([ffmpeg_path; "-y"; "-hide_banner"; "-f"; "rawvideo"; "-pix_fmt"; "rgba";
    "-s"; (str (cr_width req) ++ "x" ++ str (cr_height req))%string;
    "-r"; str (cr_fps req); "-i"; "pipe:0"]
   ++ _get_encoder_args (cr_codec req) (cr_quality req) (cr_container req)
        (cr_videoBitrate req) hw_info
   ++ ["-an"]
   ++ ["-progress"; "pipe:1";
       compose_video_only_path output_dir jid (cr_container req)])%list.

(** The ["encoder"] field of the answers:
    [encoder_args[1] if len(encoder_args) > 1 else "unknown"]. *)
Definition reported_encoder (encoder_args : list string) : string :=
  match encoder_args with
  | _ :: e :: _ => e
  | _ => "unknown"
  end.

(** A probe output that lists the NVENC and QSV encoders. *)
Definition sample_probe : string :=
  " V....D h264_nvenc           NVIDIA NVENC H.264 encoder
 V..... h264_qsv             H.264 (Intel Quick Sync Video acceleration)".

Definition nvenc : HWAccelInfo :=
  {| encoder := "h264_nvenc"; hwaccel := "cuda"; available := true |}.

End Encoding.

(** The encoder [_get_encoder_args] settles on: the detected one when
    hardware acceleration is available, else the one of the codec map, with
    [libx264] for a codec the map does not list. *)
Definition chosen_encoder (codec : string) (hw_info : Encoding.HWAccelInfo) : string :=
  if Encoding.available hw_info then Encoding.encoder hw_info
  else default "libx264" (Encoding.codec_map !! codec).

(** [c] does not occur in [s]. *)
Fixpoint lacks (c : ascii) (s : string) : bool :=
  match s with
  | EmptyString => true
  | String a s' => negb (Ascii.eqb a c) && lacks c s'
  end.

(** ** Media upload (lines 602-638) *)

Module Media.

(** [uploaded_media] (media id to temp file path) and the files under
    [uploaded_media_dir]. *)
Record MediaState := {
  uploaded_media : gmap string string;
  media_files : gmap string bytes;
}.

(** The request after the defaults of [headers.get]: ["X-Media-Id"]
    (default [""]), ["X-Filename"] (default ["media.mp4"]) and the body. *)
Record UploadRequest := {
  up_media_id : string;
  up_filename : string;
  up_body : bytes;
}.

Inductive UploadResponse :=
| up_id_required                                  (* 400 "X-Media-Id header required" *)
| up_cached (mediaId path : string)               (* "cached": True *)
| up_saved (mediaId path : string) (size : Z)     (* "cached": False *)
| up_unhandled.   (* [open] raised and left the handler: the framework answers 500 *)

Section upload.

(** [str.isalnum] on one character, and the module-level temp directory
    made at import time; both are taken as given. *)
Variable isalnum : ascii → bool.
Variable uploaded_media_dir : string.

(** Whether [open(path, "wb")] succeeds, which the file system decides: it
    raises when the directory part of the path does not exist, as it does
    for a media id with a ["/"] in it under a fresh temp directory, and
    when the name is one the system refuses. *)
Variable can_create : string → bool.

(** [c.isalnum() or c in "._-"] *)
Definition keeps (c : ascii) : bool :=
  isalnum c || Ascii.eqb c "." || Ascii.eqb c "_" || Ascii.eqb c "-".

(** ["".join(c for c in filename if c.isalnum() or c in "._-")] *)
Fixpoint safe_filename (filename : string) : string :=
  match filename with
  | EmptyString => EmptyString
  | String c rest =>
      if keeps c then String c (safe_filename rest) else safe_filename rest
  end.

Definition upload_media (req : UploadRequest) (st : MediaState)
  : UploadResponse * MediaState :=
  let media_id := up_media_id req in
  if String.eqb media_id "" then (up_id_required, st)
  else
    let cached :=
      match uploaded_media st !! media_id with
      | Some path => if exists_file path (media_files st) then Some path else None
      | None => None
      end in
    match cached with
    | Some path => (up_cached media_id path, st)
    | None =>
        let file_path :=
          posixpath.join uploaded_media_dir
            (media_id ++ "_" ++ safe_filename (up_filename req))%string in
        if negb (can_create file_path) then (up_unhandled, st)
        else
          let st' :=
            {| uploaded_media := <[media_id := file_path]> (uploaded_media st);
               media_files := <[file_path := up_body req]> (media_files st) |} in
          (up_saved media_id file_path (len (up_body req)), st')
    end.

End upload.

(** ASCII letters and digits, for examples. *)
Definition ascii_alnum (c : ascii) : bool :=
  let n := Ascii.nat_of_ascii c in
  ((48 <=? n) && (n <=? 57) || (65 <=? n) && (n <=? 90)
   || (97 <=? n) && (n <=? 122))%nat.

(** A file system on which a file can be created directly in [dir] and
    nowhere else: [dir] has no subdirectory. *)
Definition only_under (dir path : string) : bool :=
  String.eqb (posixpath.dirname path) dir.

Definition nothing : MediaState := {| uploaded_media := ∅; media_files := ∅ |}.

Definition clip : UploadRequest :=
  {| up_media_id := "m1"; up_filename := "my clip (1).mp4"; up_body := [Byte.x01; Byte.x02] |}.


(** A media id that names a directory which does not exist. *)
Definition nested : UploadRequest :=
  {| up_media_id := "a/b"; up_filename := "clip.mp4"; up_body := [Byte.x01] |}.

End Media.

(** * Properties *)

Example dirname_export :
  posixpath.dirname Sample.out = "/tmp/freecut_export_ab".
Proof. reflexivity. Qed.

Example splitext_export : posixpath.splitext_ext Sample.out = ".mp4".
Proof. reflexivity. Qed.

Example splitext_hidden : posixpath.splitext_ext "/tmp/x.d/.bashrc" = "".
Proof. reflexivity. Qed.

Example join_video :
  posixpath.join "/tmp/freecut_export_ab" "video_j1.mp4" = Sample.video.
Proof. reflexivity. Qed.

Example compose_creates :
  ffmpeg_export_compose Sample.request Sample.env Sample.empty
  = (r_compose "j1" st_encoding Sample.out, Sample.created).
Proof. vm_compute. reflexivity. Qed.

Example created_job :
  Sample.the_job Sample.created = Some Sample.job
  ∧ video_only_path Sample.job = Sample.video.
Proof. vm_compute. done. Qed.

(** The scenario of section 8: frames 2, 0, 1. *)
Example scenario_2_0_1 :
  let ops := map (submission "j1") [(2, Sample.f2); (0, Sample.f0); (1, Sample.f1)] in
  let '(rs, st) := run ops Sample.created in
  rs = [r_frame 1; r_frame 2; r_frame 3]
  ∧ (stdin_log <$> Sample.the_job st) = Some [Sample.f0; Sample.f1; Sample.f2]
  ∧ (next_frame_to_write <$> Sample.the_job st) = Some 3.
Proof. vm_compute. done. Qed.

(** ** Progress queries *)

Lemma Qmake_to_pos_div (a b : Z) :
  0 < b → (Qmake a (Z.to_pos b) == inject_Z a / inject_Z b)%Q.
Proof.
  intros Hb. unfold Qeq, Qdiv, Qmult, Qinv, inject_Z. simpl.
  destruct b as [|p|p]; try lia. simpl. lia.
Qed.

Lemma Qmin_le_one (q : Q) : (Qmin q 1 <= 1)%Q.
Proof. apply Q.le_min_r. Qed.

Lemma Qmin_proper_l (q q' r : Q) : (q == q')%Q → (Qmin q r == Qmin q' r)%Q.
Proof. intros E. rewrite E. reflexivity. Qed.

Lemma progress_of_refines (j : ComposeExportJob) :
  (progress_of j == progress_spec (frames_received j) (total_frames j))%Q.
Proof.
  unfold progress_of, progress_spec.
  destruct (Z.ltb_spec 0 (total_frames j)) as [Hpos|Hneg].
  - rewrite decide_True by done.
    apply Qmin_proper_l, Qmake_to_pos_div, Hpos.
  - rewrite decide_False by lia. reflexivity.
Qed.

Lemma progress_of_le_one (j : ComposeExportJob) : (progress_of j <= 1)%Q.
Proof.
  unfold progress_of. case_match; [apply Qmin_le_one | done].
Qed.

(** C8.  For an existing job, the progress query returns the server state
    it was given, and the progress it reports is
    [min(framesReceived / totalFrames, 1.0)] when [totalFrames > 0] and
    [0] otherwise; it is never above 1. *)
Theorem progress_query_reads_only (st : State) (jid : string) (job : ComposeExportJob) :
  compose_jobs st !! jid = Some job →
  ∃ p : Q,
    ffmpeg_export_progress jid st
    = (r_progress (status job) p (frames_received job) (total_frames job)
                  (encoder_fps job), st)
    ∧ (p == progress_spec (frames_received job) (total_frames job))%Q
    ∧ (p <= 1)%Q
    ∧ (total_frames job ≤ 0 → p = 0%Q).
Proof.
  intros Hjob. exists (progress_of job). repeat split.
  - unfold ffmpeg_export_progress. by rewrite Hjob.
  - apply progress_of_refines.
  - apply progress_of_le_one.
  - intros Hle. unfold progress_of.
    destruct (Z.ltb_spec 0 (total_frames job)); [lia | done].
Qed.

Lemma progress_query_reads_only_witness :
  compose_jobs Sample.created !! "j1" = Some Sample.job
  ∧ ∃ p : Q,
      ffmpeg_export_progress "j1" Sample.created
      = (r_progress st_encoding p 0 3 0%Q, Sample.created)
      ∧ (p == progress_spec 0 3)%Q
      ∧ (p <= 1)%Q
      ∧ (3 ≤ 0 → p = 0%Q).
Proof.
  split; [reflexivity |].
  apply (progress_query_reads_only Sample.created "j1" Sample.job).
  reflexivity.
Defined.

(** ** Job creation and the reaper *)

Lemma reap_subseteq (st : State) (jid : string) :
  compose_jobs (reap st jid) ⊆ compose_jobs st.
Proof.
  unfold reap. destruct (compose_jobs st !! jid); simpl; [apply delete_subseteq | done].
Qed.

Lemma foldl_reap_subseteq (jids : list string) (st : State) :
  compose_jobs (foldl reap st jids) ⊆ compose_jobs st.
Proof.
  revert st. induction jids as [|jid jids IH]; intros st; simpl; [done |].
  etrans; [apply IH | apply reap_subseteq].
Qed.

Lemma cleanup_old_jobs_subseteq (now : Z) (st : State) :
  compose_jobs (_cleanup_old_jobs now st) ⊆ compose_jobs st.
Proof. apply foldl_reap_subseteq. Qed.

Lemma find_job_unknown (jobId : option string) (st : State) :
  (∀ jid, jobId = Some jid → compose_jobs st !! jid = None) →
  find_job jobId st = None.
Proof.
  intros Hun. unfold find_job. destruct jobId as [jid|]; [| done].
  rewrite (Hun jid eq_refl). by destruct (String.eqb jid "").
Qed.

Lemma finalize_unknown (jobId : option string) (env : FinalizeEnv) (st : State) :
  find_job jobId st = None →
  ffmpeg_export_finalize jobId env st = (JSONResponse e_invalid_job_id 400, st).
Proof. intros H. unfold ffmpeg_export_finalize. by rewrite H. Qed.

(** C9.  A creation request with [totalFrames <= 0] is answered with the
    error "totalFrames must be > 0" and adds no job: the job table after
    the call is included in the one before.  Finalize for an identifier
    that was never created is then answered "Invalid jobId" and leaves the
    server state as it is. *)
Theorem compose_rejects_nonpositive_total
    (req : ComposeRequest) (env : ComposeEnv) (st : State) :
  cr_totalFrames req ≤ 0 →
  ∃ st' : State,
    ffmpeg_export_compose req env st = (JSONResponse e_total_frames 400, st')
    ∧ compose_jobs st' ⊆ compose_jobs st
    ∧ ∀ (jobId : option string) (fenv : FinalizeEnv),
        (∀ jid, jobId = Some jid → compose_jobs st !! jid = None) →
        ffmpeg_export_finalize jobId fenv st' = (JSONResponse e_invalid_job_id 400, st').
Proof.
  intros Hle. exists (_cleanup_old_jobs (ce_now env) st). split; [| split].
  - unfold ffmpeg_export_compose.
    destruct (Z.leb_spec (cr_totalFrames req) 0); [done | lia].
  - apply cleanup_old_jobs_subseteq.
  - intros jobId fenv Hun. apply finalize_unknown, find_job_unknown.
    intros jid ->.
    eapply lookup_weaken_None; [apply (Hun jid eq_refl) |].
    apply cleanup_old_jobs_subseteq.
Qed.

Lemma compose_rejects_nonpositive_total_witness :
  ∃ st' : State,
    ffmpeg_export_compose
      {| cr_width := 4; cr_height := 4; cr_fps := 30; cr_totalFrames := 0;
         cr_codec := "avc"; cr_quality := "high"; cr_container := "mp4";
         cr_videoBitrate := None; cr_audioBitrate := None |}
      Sample.env Sample.empty
    = (JSONResponse e_total_frames 400, st')
    ∧ compose_jobs st' ⊆ compose_jobs Sample.empty
    ∧ ∀ (jobId : option string) (fenv : FinalizeEnv),
        (∀ jid, jobId = Some jid → compose_jobs Sample.empty !! jid = None) →
        ffmpeg_export_finalize jobId fenv st' = (JSONResponse e_invalid_job_id 400, st').
Proof.
  apply (compose_rejects_nonpositive_total
           {| cr_width := 4; cr_height := 4; cr_fps := 30; cr_totalFrames := 0;
              cr_codec := "avc"; cr_quality := "high"; cr_container := "mp4";
              cr_videoBitrate := None; cr_audioBitrate := None |}
           Sample.env Sample.empty).
  simpl. lia.
Defined.

(** ** The two loops over the frame buffer *)

Lemma stdin_write_Some (data : bytes) (j j2 : ComposeExportJob) :
  stdin_write data j = Some j2 →
  ∃ p, j2 = set_process (Some p) j ∧ stdin_log j2 = (stdin_log j ++ [data])%list.
Proof.
  unfold stdin_write, stdin_log. intros H.
  destruct (process j) as [p|] eqn:Ep; simpl in H; [| discriminate].
  destruct (stdin p) as [w|] eqn:Ew; simpl in H; [| discriminate].
  destruct (writer_write data w) as [w'|] eqn:Ewr; simpl in H; [| discriminate].
  injection H as <-. eexists. split; [reflexivity |]. simpl.
  unfold writer_write in Ewr.
  destruct (sw_closed w); [discriminate |].
  destruct (sw_capacity w) as [[|c]|]; simplify_eq; done.
Qed.

Lemma size_delete_fuel (b : gmap Z bytes) (i : Z) (data : bytes) (fuel : nat) :
  b !! i = Some data → (size b ≤ S fuel)%nat → (size (delete i b) ≤ fuel)%nat.
Proof.
  intros Hi Hs. rewrite map_size_delete, Hi. simpl. lia.
Qed.

Lemma size_zero_lookup (b : gmap Z bytes) (i : Z) :
  (size b ≤ 0)%nat → b !! i = None.
Proof.
  intros Hs. assert (b = ∅) as -> by (apply map_size_empty_inv; lia). done.
Qed.

(** The loop of the frame handler: counters, status, buffer. *)
Lemma write_sequential_frames_spec (fuel : nat) (job j' : ComposeExportJob) (b : bool) :
  write_sequential_frames fuel job = (j', b) →
  frames_received j' = frames_received job
  ∧ next_frame_to_write job ≤ next_frame_to_write j'
  ∧ status j' = (if b then st_error else status job)
  ∧ frame_buffer j' ⊆ frame_buffer job
  ∧ (∀ i d, frame_buffer j' !! i = Some d →
            next_frame_to_write job ≤ i → next_frame_to_write j' ≤ i)
  ∧ (b = false → (size (frame_buffer job) ≤ fuel)%nat → drained j').
Proof.
  revert job. induction fuel as [|fuel IH]; intros job Hrun; simpl in Hrun.
  { simplify_eq. split_and!; try done; try lia.
    intros _ Hs. by apply size_zero_lookup. }
  destruct (frame_buffer job !! next_frame_to_write job) as [data|] eqn:Hnext.
  2:{ simplify_eq. split_and!; try done; lia. }
  destruct (stdin_write data _) as [job2|] eqn:Hw.
  - apply stdin_write_Some in Hw as (p & -> & _).
    apply IH in Hrun as (Hfr & Hn & Hst & Hsub & Hge & Hdr). simpl in *.
    split_and!; try done; try lia.
    + etrans; [apply Hsub | apply delete_subseteq].
    + intros i d Hi Hle. apply (Hge i d Hi).
      assert (i ≠ next_frame_to_write job); [| lia].
      intros ->. eapply lookup_weaken in Hi; [| apply Hsub].
      by rewrite lookup_delete_eq in Hi.
    + intros Hb Hs. apply Hdr; [done |]. by eapply size_delete_fuel.
  - simplify_eq. simpl. split_and!; try done; try lia.
    apply delete_subseteq.
Qed.

(** The flush loop of finalize: a failed write does not stop it. *)
Lemma flush_frames_spec (fuel : nat) (job : ComposeExportJob) :
  let j' := flush_frames fuel job in
  frames_received j' = frames_received job
  ∧ next_frame_to_write job ≤ next_frame_to_write j'
  ∧ status j' = status job
  ∧ frame_buffer j' ⊆ frame_buffer job
  ∧ (∀ i d, frame_buffer j' !! i = Some d →
            next_frame_to_write job ≤ i → next_frame_to_write j' ≤ i)
  ∧ ((size (frame_buffer job) ≤ fuel)%nat → drained j').
Proof.
  revert job. induction fuel as [|fuel IH]; intros job; simpl.
  { split_and!; try done; try lia. intros Hs. by apply size_zero_lookup. }
  destruct (frame_buffer job !! next_frame_to_write job) as [data|] eqn:Hnext.
  2:{ split_and!; try done; lia. }
  match goal with |- context [flush_frames fuel ?j] => specialize (IH j) end.
  simpl in IH.
  match type of IH with context [if ?c then _ else _] => set (j2 := if c then _ else _) in * end.
  assert (frames_received j2 = frames_received job
          ∧ next_frame_to_write j2 = next_frame_to_write job
          ∧ status j2 = status job
          ∧ frame_buffer j2 = delete (next_frame_to_write job) (frame_buffer job))
    as (E1 & E2 & E3 & E4).
  { subst j2. destruct (process_has_stdin _); [| done].
    destruct (stdin_write data _) as [j|] eqn:Hw; [| done].
    by apply stdin_write_Some in Hw as (p & -> & _). }
  simpl in IH. rewrite E1, E2, E3, E4 in IH. rewrite E2.
  destruct IH as (Hfr & Hn & Hst & Hsub & Hge & Hdr).
  split_and!; try done; try lia.
  - etrans; [apply Hsub | apply delete_subseteq].
  - intros i d Hi Hle. apply (Hge i d Hi).
    assert (i ≠ next_frame_to_write job); [| lia].
    intros ->. eapply lookup_weaken in Hi; [| apply Hsub].
    by rewrite lookup_delete_eq in Hi.
  - intros Hs. apply Hdr. by eapply size_delete_fuel.
Qed.

(** ** What each handler does to the job table *)

Lemma find_job_Some (jobId : option string) (st : State) (jid : string)
    (job : ComposeExportJob) :
  find_job jobId st = Some (jid, job) →
  jobId = Some jid ∧ jid ≠ "" ∧ compose_jobs st !! jid = Some job.
Proof.
  unfold find_job. destruct jobId as [s|]; [| done].
  destruct (String.eqb_spec s ""); [done |].
  destruct (compose_jobs st !! s) eqn:E; [| done].
  intros [= <- <-]. done.
Qed.

Lemma find_job_lookup (st : State) (jid : string) (job : ComposeExportJob) :
  jid ≠ "" → compose_jobs st !! jid = Some job →
  find_job (Some jid) st = Some (jid, job).
Proof.
  intros Hne Hjob. unfold find_job.
  destruct (String.eqb_spec jid ""); [done |]. by rewrite Hjob.
Qed.

(** The frame handler either leaves the server as it is and refuses, or
    has passed every check and run the critical section. *)
Lemma frame_cases (req : FrameRequest) (st st' : State) (r : Response) :
  ffmpeg_export_frame req st = (r, st') →
  (st' = st ∧ ¬ accepted r)
  ∨ ∃ jid job job' d b,
      find_job (fr_jobId req) st = Some (jid, job)
      ∧ status job = st_encoding
      ∧ process_has_stdin job = true
      ∧ fr_data req = data_decoded d
      ∧ len d = expected_size job
      ∧ buffer_and_write (fr_frameIndex req) d job = (job', b)
      ∧ st' = put_job jid job' st
      ∧ (if b then ¬ accepted r else r = r_frame (frames_received job')).
Proof.
  unfold ffmpeg_export_frame. intros H.
  destruct (find_job (fr_jobId req) st) as [[jid job]|] eqn:Hfind.
  2:{ simplify_eq. left. split; [done | simpl; tauto]. }
  destruct (decide (status job = st_encoding)) as [Hst|Hst].
  2:{ rewrite bool_decide_eq_false_2 in H by done. simpl in H. simplify_eq.
      left. split; [done | simpl; tauto]. }
  rewrite bool_decide_eq_true_2 in H by done. simpl in H.
  destruct (fr_data req) as [| |d] eqn:Hdata.
  { simplify_eq. left. split; [done | simpl; tauto]. }
  { destruct (process_has_stdin job); simpl in H; simplify_eq;
      left; (split; [done | simpl; tauto]). }
  destruct (process_has_stdin job) eqn:Hp; simpl in H.
  2:{ simplify_eq. left. split; [done | simpl; tauto]. }
  destruct (Z.eqb_spec (len d) (expected_size job)) as [Hlen|Hlen]; simpl in H.
  2:{ simplify_eq. left. split; [done | simpl; tauto]. }
  destruct (buffer_and_write (fr_frameIndex req) d job) as [job' b] eqn:Hbw.
  right. exists jid, job, job', d, b.
  destruct b; simplify_eq; split_and!; try done. simpl. tauto.
Qed.

Lemma same_frames_refl (j : ComposeExportJob) : same_frames j j.
Proof. by unfold same_frames. Qed.

(** Finalize either refuses, leaving the server as it is, or has flushed
    the buffer of an encoding job and moved it out of [encoding]. *)
Lemma finalize_cases (jobId : option string) (env : FinalizeEnv) (st st' : State)
    (r : Response) :
  ffmpeg_export_finalize jobId env st = (r, st') →
  st' = st
  ∨ ∃ jid job job',
      find_job jobId st = Some (jid, job)
      ∧ status job = st_encoding
      ∧ compose_jobs st' = <[jid := job']> (compose_jobs st)
      ∧ same_frames (flush_frames (size (frame_buffer job)) (set_status st_finalizing job)) job'
      ∧ status job' ≠ st_encoding.
Proof.
  unfold ffmpeg_export_finalize. intros H.
  destruct (find_job jobId st) as [[jid job]|] eqn:Hfind; [| left; by simplify_eq].
  destruct (decide (status job = st_encoding)) as [Hst|Hst].
  2:{ rewrite bool_decide_eq_false_2 in H by done. simpl in H. left. by simplify_eq. }
  rewrite bool_decide_eq_true_2 in H by done. simpl in H.
  right. exists jid, job.
  set (job2 := flush_frames _ _) in *.
  assert (Hst2 : status job2 = st_finalizing).
  { subst job2. by destruct (flush_frames_spec (size (frame_buffer job))
                               (set_status st_finalizing job)) as (_ & _ & -> & _). }
  assert (Hclose : same_frames job2 (close_stdin job2)
                   ∧ status (close_stdin job2) = st_finalizing).
  { unfold close_stdin. destruct (process job2) as [p|]; [| by split].
    destruct (stdin p); by split. }
  destruct Hclose as [Hsf Hst3].
  set (job3 := close_stdin job2) in *.
  destruct (process job3) as [p|] eqn:Hp.
  2:{ simplify_eq. exists job3. split_and!; try done. congruence. }
  destruct (fe_encoder_exit env) as [code tail| |].
  3:{ simplify_eq. exists job3. split_and!; try done. congruence. }
  2:{ simplify_eq. eexists. split_and!; try done. }
  destruct (code =? 0); simpl in H.
  2:{ simplify_eq. eexists. split_and!; try done. }
  unfold report_done in H.
  destruct (has_audio _ _).
  - destruct (fe_mux_exit env) as [mux_code|].
    + destruct (mux_code =? 0); simpl in H; simplify_eq;
        eexists; split_and!; try done.
    + simplify_eq. eexists. split_and!; try done. simpl. congruence.
  - simplify_eq. eexists. split_and!; try done.
Qed.

Lemma job_trans_refl (k : string) (job : ComposeExportJob) (o : Op) :
  job_trans k job job o.
Proof. apply jt_same; [apply same_frames_refl | done]. Qed.

(** One operation and the job stored under [k]. *)
Lemma step_lookup (o : Op) (st st' : State) (r : Response) (k : string)
    (job : ComposeExportJob) :
  step o st = (r, st') →
  compose_jobs st !! k = Some job →
  ∃ job', compose_jobs st' !! k = Some job' ∧ job_trans k job job' o.
Proof.
  intros Hstep Hjob. destruct o as [req|jobId data|jobId env|jid|jid|jid]; simpl in Hstep.
  - apply frame_cases in Hstep
      as [[-> _]|(jid & j & j' & d & b & Hfind & Hst & _ & Hd & _ & Hbw & -> & _)].
    { exists job. split; [done |]. apply job_trans_refl. }
    apply find_job_Some in Hfind as (Hid & _ & Hj).
    destruct (decide (jid = k)) as [->|Hne].
    + simplify_eq. exists j'. split; [simpl; apply lookup_insert_eq |].
      by eapply jt_frame.
    + exists job. split; [simpl; by rewrite lookup_insert_ne |].
      apply job_trans_refl.
  - unfold ffmpeg_export_audio in Hstep.
    destruct (find_job jobId st) as [[jid j]|] eqn:Hfind; simplify_eq.
    2:{ exists job. split; [done |]. apply job_trans_refl. }
    apply find_job_Some in Hfind as (Hid & _ & Hj). simpl.
    destruct (decide (jid = k)) as [->|Hne].
    + simplify_eq. eexists. split; [simpl; apply lookup_insert_eq |].
      by apply jt_same.
    + exists job. split; [simpl; by rewrite lookup_insert_ne |].
      apply job_trans_refl.
  - apply finalize_cases in Hstep
      as [->|(jid & j & j' & Hfind & Hst & Hjobs & Hsf & Hne)].
    { exists job. split; [done |]. apply job_trans_refl. }
    apply find_job_Some in Hfind as (Hid & _ & Hj). rewrite Hjobs.
    destruct (decide (jid = k)) as [->|Hnk].
    + simplify_eq. exists j'. split; [simpl; apply lookup_insert_eq |].
      by apply jt_finalize.
    + exists job. split; [simpl; by rewrite lookup_insert_ne |].
      apply job_trans_refl.
  - unfold ffmpeg_export_cancel in Hstep.
    destruct (compose_jobs st !! jid) as [j|] eqn:Hj; simplify_eq.
    2:{ exists job. split; [done |]. apply job_trans_refl. }
    simpl. destruct (decide (jid = k)) as [->|Hne].
    + assert (j = job) as -> by congruence.
      eexists. split; [simpl; apply lookup_insert_eq |].
      apply jt_cancel; [| done].
      destruct (process job) as [p|]; [| done]. by destruct (returncode p).
    + exists job. split; [simpl; by rewrite lookup_insert_ne |].
      apply job_trans_refl.
  - unfold ffmpeg_export_progress in Hstep.
    exists job. destruct (compose_jobs st !! jid); simplify_eq;
      (split; [done |]); apply job_trans_refl.
  - unfold ffmpeg_export_download in Hstep.
    exists job.
    destruct (compose_jobs st !! jid) as [j|]; simplify_eq.
    2:{ split; [done |]. apply job_trans_refl. }
    destruct (negb _); simplify_eq.
    { split; [done |]. apply job_trans_refl. }
    destruct (negb _); simplify_eq;
      (split; [done |]); apply job_trans_refl.
Qed.

Lemma buffer_and_write_spec (i : Z) (d : bytes) (job j' : ComposeExportJob) (b : bool) :
  buffer_and_write i d job = (j', b) →
  frames_received j' = frames_received job + 1
  ∧ next_frame_to_write job ≤ next_frame_to_write j'
  ∧ status j' = (if b then st_error else status job)
  ∧ frame_buffer j' ⊆ <[i := d]> (frame_buffer job)
  ∧ (∀ i' d', frame_buffer j' !! i' = Some d' →
              next_frame_to_write job ≤ i' → next_frame_to_write j' ≤ i')
  ∧ (b = false → drained j').
Proof.
  unfold buffer_and_write. intros H.
  apply write_sequential_frames_spec in H as (Hfr & Hn & Hst & Hsub & Hge & Hdr).
  simpl in *. split_and!; try done. intros Hb. by apply Hdr.
Qed.

(** ** The counters never decrease *)

Lemma job_trans_counters (k : string) (job job' : ComposeExportJob) (o : Op) :
  job_trans k job job' o →
  next_frame_to_write job ≤ next_frame_to_write job'
  ∧ frames_received job ≤ frames_received job'.
Proof.
  intros [o' Hsf _|req d b _ _ _ Hbw|jobId env _ Hsf _|Hsf _];
    try destruct Hsf as (_ & Hn & Hf).
  - lia.
  - apply buffer_and_write_spec in Hbw as (-> & Hn & _). lia.
  - destruct (flush_frames_spec (size (frame_buffer job)) (set_status st_finalizing job))
      as (Hf' & Hn' & _). simpl in *. lia.
  - lia.
Qed.

(** C10.  Along every sequence of frame, audio, finalize, cancel, progress
    and download operations, a job of the table stays in the table and
    neither its [next_frame_to_write] nor its [frames_received] ever gets
    smaller. *)
Theorem counters_never_decrease (ops : list Op) (st st' : State) (rs : list Response)
    (k : string) (job : ComposeExportJob) :
  run ops st = (rs, st') →
  compose_jobs st !! k = Some job →
  ∃ job', compose_jobs st' !! k = Some job'
          ∧ next_frame_to_write job ≤ next_frame_to_write job'
          ∧ frames_received job ≤ frames_received job'.
Proof.
  revert st rs job. induction ops as [|o ops IH]; intros st rs job Hrun Hjob; simpl in Hrun.
  { simplify_eq. exists job. split_and!; [done | lia | lia]. }
  destruct (step o st) as [r st1] eqn:Hstep.
  destruct (run ops st1) as [rs' st2] eqn:Hrest. simplify_eq.
  destruct (step_lookup _ _ _ _ _ _ Hstep Hjob) as (job1 & Hjob1 & Htrans).
  apply job_trans_counters in Htrans as [Hn Hfr].
  destruct (IH _ _ _ Hrest Hjob1) as (job' & Hjob' & Hn' & Hfr').
  exists job'. split_and!; [done | lia | lia].
Qed.

Lemma counters_never_decrease_witness :
  compose_jobs Sample.created !! "j1" = Some Sample.job
  ∧ ∃ job', compose_jobs (run Sample.session Sample.created).2 !! "j1" = Some job'
            ∧ next_frame_to_write Sample.job ≤ next_frame_to_write job'
            ∧ frames_received Sample.job ≤ frames_received job'.
Proof.
  split; [reflexivity |].
  apply (counters_never_decrease Sample.session Sample.created
           (run Sample.session Sample.created).2
           (run Sample.session Sample.created).1 "j1" Sample.job).
  - apply surjective_pairing.
  - reflexivity.
Defined.

Example session_outcome :
  (run Sample.session Sample.created).1
  = [r_frame 1; r_frame 2; r_progress st_encoding (Qmin (2 # 3) 1) 2 3 0%Q;
     r_finalize 2 Sample.out; r_cancel].
Proof. vm_compute. reflexivity. Qed.

(** ** Terminal states and cancel *)





(** C5, as the specification states it, fails: cancel on a job that is [done]
    answers success, but it changes the status and deletes the output
    artifact. *)
Lemma cancel_of_done_job_deletes_output :
  let r_st := ffmpeg_export_cancel "j1" Sample.finished in
  r_st.1 = r_cancel
  ∧ (status <$> compose_jobs Sample.finished !! "j1") = Some st_done
  ∧ (status <$> compose_jobs r_st.2 !! "j1") = Some st_cancelled
  ∧ files Sample.finished !! Sample.out = Some Sample.video_bytes
  ∧ files r_st.2 !! Sample.out = None.
Proof. vm_compute. done. Qed.

Lemma unlink_absent (path : option string) (f : gmap string bytes) :
  (∀ p, path = Some p → f !! p = None) → unlink_if_exists path f = f.
Proof.
  intros Habs. unfold unlink_if_exists. destruct path as [p|]; [| done].
  destruct (String.eqb p ""); [done |].
  unfold exists_file. rewrite (Habs p eq_refl).
  by rewrite bool_decide_eq_false_2 by (by intros [? ?]).
Qed.

(** A path other than the one to unlink keeps its content; the path itself,
    when it is not the empty string, names no file afterwards. *)
Lemma unlink_if_exists_other (path : option string) (f : gmap string bytes) (q : string) :
  path ≠ Some q → unlink_if_exists path f !! q = f !! q.
Proof.
  intros Hq. unfold unlink_if_exists. destruct path as [p|]; [| done].
  destruct (String.eqb p ""); [done |].
  destruct (exists_file p f); [| done].
  apply lookup_delete_ne. congruence.
Qed.

Lemma unlink_if_exists_gone (p : string) (f : gmap string bytes) :
  p ≠ "" → unlink_if_exists (Some p) f !! p = None.
Proof.
  intros Hp. unfold unlink_if_exists.
  rewrite (proj2 (String.eqb_neq p "") Hp).
  unfold exists_file. destruct (decide (is_Some (f !! p))) as [Hs|Hs].
  - rewrite bool_decide_eq_true_2 by done. apply lookup_delete_eq.
  - rewrite bool_decide_eq_false_2 by done. by apply eq_None_not_Some.
Qed.

Lemma unlink_if_exists_empty (path : option string) (f : gmap string bytes) :
  unlink_if_exists path f !! "" = f !! "".
Proof.
  unfold unlink_if_exists. destruct path as [p|]; [| done].
  destruct (String.eqb_spec p "") as [->|Hp]; [done |].
  destruct (exists_file p f); [| done].
  by apply lookup_delete_ne.
Qed.

(** C5, amended.  Cancel on an existing job, terminal or not, answers
    success; it sets the status to [cancelled], deletes the output and
    audio artifacts that exist, and changes no other field of the job than
    the status and the process handle.  The deletion is stated on the file
    system after the call: no file is left at the output path nor at the
    audio path, every other path holds what it held before, and the empty
    path, which names no file, is skipped.  Cancel is a no-op when the job
    is already [cancelled], its encoder has exited or was sent terminate
    before, and both artifacts are gone already; on a job that is [done] or
    [error] it is not. *)
Theorem cancel_succeeds_and_cleans_up (st : State) (jid : string) (job : ComposeExportJob) :
  compose_jobs st !! jid = Some job →
  ∃ job' st',
    ffmpeg_export_cancel jid st = (r_cancel, st')
    ∧ compose_jobs st' = <[jid := job']> (compose_jobs st)
    ∧ status job' = st_cancelled
    ∧ only_status_and_process_differ job job'
    ∧ (process_stopped job → process job' = process job)
    ∧ files st' = _cleanup_job_files job (files st)
    ∧ (output_path job ≠ "" → files st' !! output_path job = None)
    ∧ (∀ a, audio_path job = Some a → a ≠ "" → files st' !! a = None)
    ∧ (∀ path, path ≠ output_path job → audio_path job ≠ Some path →
               files st' !! path = files st !! path)
    ∧ files st' !! "" = files st !! ""
    ∧ (status job = st_cancelled → process_stopped job →
       files st !! output_path job = None →
       (∀ a, audio_path job = Some a → files st !! a = None) →
       st' = st).
Proof.
  intros Hjob. unfold ffmpeg_export_cancel. rewrite Hjob.
  set (job1 := match process job with Some _ => _ | None => _ end).
  assert (H1 : ∃ p', job1 = set_process p' job
                     ∧ (process_stopped job → p' = process job)).
  { subst job1. unfold process_stopped. destruct (process job) as [p|] eqn:Hp.
    - destruct (returncode p) eqn:Hr.
      + exists (Some p). split; [| done]. destruct job; simpl in *; by subst.
      + exists (Some (terminate p)). split; [done |].
        intros [[c Hc]|Ht]; [discriminate |].
        f_equal. destruct p; simpl in *; by subst.
    - exists None. split; [| done]. destruct job; simpl in *; by subst. }
  destruct H1 as (p' & Hj1 & Hp'). clearbody job1. subst job1.
  exists (set_status st_cancelled (set_process p' job)).
  eexists. split; [reflexivity |].
  cbn [compose_jobs files set_files put_job].
  change (_cleanup_job_files (set_status st_cancelled (set_process p' job)) (files st))
    with (_cleanup_job_files job (files st)).
  split_and!.
  - done.
  - done.
  - by destruct job.
  - done.
  - done.
  - intros Hout. unfold _cleanup_job_files.
    destruct (decide (audio_path job = Some (output_path job))) as [Ha|Ha].
    + rewrite Ha. by apply unlink_if_exists_gone.
    + rewrite unlink_if_exists_other by done. by apply unlink_if_exists_gone.
  - intros a Ha Hane. unfold _cleanup_job_files. rewrite Ha.
    by apply unlink_if_exists_gone.
  - intros path Hpath Ha. unfold _cleanup_job_files.
    rewrite !unlink_if_exists_other; [done | congruence | done].
  - unfold _cleanup_job_files. by rewrite !unlink_if_exists_empty.
  - intros Hst Hstop Hout Haud.
    rewrite (Hp' Hstop).
    assert (set_status st_cancelled (set_process (process job) job) = job) as ->.
    { destruct job; simpl in *; by subst. }
    unfold set_files, put_job. simpl.
    rewrite insert_id by done.
    unfold _cleanup_job_files.
    rewrite (unlink_absent (Some (output_path job))) by (by intros p [= <-]).
    rewrite unlink_absent by done.
    by destruct st.
Qed.

Lemma cancel_succeeds_and_cleans_up_witness :
  compose_jobs Sample.finished !! "j1" = Some Sample.done_job
  ∧ ∃ job' st',
      ffmpeg_export_cancel "j1" Sample.finished = (r_cancel, st')
      ∧ compose_jobs st' = <["j1" := job']> (compose_jobs Sample.finished)
      ∧ status job' = st_cancelled
      ∧ only_status_and_process_differ Sample.done_job job'
      ∧ (process_stopped Sample.done_job → process job' = process Sample.done_job)
      ∧ files st' = _cleanup_job_files Sample.done_job (files Sample.finished)
      ∧ (output_path Sample.done_job ≠ "" → files st' !! output_path Sample.done_job = None)
      ∧ (∀ a, audio_path Sample.done_job = Some a → a ≠ "" → files st' !! a = None)
      ∧ (∀ path, path ≠ output_path Sample.done_job →
                 audio_path Sample.done_job ≠ Some path →
                 files st' !! path = files Sample.finished !! path)
      ∧ files st' !! "" = files Sample.finished !! ""
      ∧ (status Sample.done_job = st_cancelled → process_stopped Sample.done_job →
         files Sample.finished !! output_path Sample.done_job = None →
         (∀ a, audio_path Sample.done_job = Some a → files Sample.finished !! a = None) →
         st' = Sample.finished).
Proof.
  split; [vm_compute; reflexivity |].
  apply (cancel_succeeds_and_cleans_up Sample.finished "j1" Sample.done_job).
  vm_compute. reflexivity.
Defined.

(** A second cancel changes nothing. *)
Example cancel_twice :
  let st1 := (ffmpeg_export_cancel "j1" Sample.created).2 in
  ffmpeg_export_cancel "j1" st1 = (r_cancel, st1).
Proof. vm_compute. reflexivity. Qed.

(** ** The buffer and the counter *)

(** C3, as the specification states it, fails: after frames 0, 1 and 0 again,
    all three accepted, index 0 sits in the buffer below the counter. *)
Lemma resubmitted_index_stays_buffered :
  let r_st := run (map (submission "j1") [(0, Sample.f0); (1, Sample.f1); (0, Sample.f0)])
                  Sample.created in
  r_st.1 = [r_frame 1; r_frame 2; r_frame 3]
  ∧ match Sample.the_job r_st.2 with
    | Some job =>
        next_frame_to_write job = 2
        ∧ frame_buffer job !! 0 = Some Sample.f0
        ∧ ¬ buffer_ahead job
    | None => False
    end.
Proof.
  split; [vm_compute; reflexivity |].
  destruct (Sample.the_job _) as [job|] eqn:E; [| vm_compute in E; discriminate].
  assert (Hn : next_frame_to_write job = 2).
  { vm_compute in E. by injection E as <-. }
  assert (H0 : frame_buffer job !! 0 = Some Sample.f0).
  { vm_compute in E. injection E as <-. vm_compute. reflexivity. }
  split_and!; [done | done |].
  intros Hahead. specialize (Hahead 0 _ H0). lia.
Qed.

Lemma job_trans_buffer_ahead (k : string) (job job' : ComposeExportJob) (o : Op) :
  job_trans k job job' o →
  buffer_ahead job →
  (∀ req, o = op_frame req → fr_jobId req = Some k →
          next_frame_to_write job ≤ fr_frameIndex req) →
  buffer_ahead job'.
Proof.
  unfold buffer_ahead.
  intros [o' Hsf _|req d b Hid _ _ Hbw|jobId env _ Hsf _|Hsf _] Hahead Hidx;
    try destruct Hsf as (Hb & Hn & _).
  - rewrite Hb, Hn. apply Hahead.
  - apply buffer_and_write_spec in Hbw as (_ & _ & _ & Hsub & Hge & _).
    intros i d' Hi. apply (Hge i d' Hi).
    eapply lookup_weaken in Hi; [| apply Hsub].
    destruct (decide (fr_frameIndex req = i)) as [<-|Hne].
    + by apply Hidx.
    + rewrite lookup_insert_ne in Hi by done. by eapply Hahead.
  - destruct (flush_frames_spec (size (frame_buffer job)) (set_status st_finalizing job))
      as (_ & _ & _ & Hsub & Hge & _). simpl in *.
    rewrite Hb, Hn. intros i d Hi. apply (Hge i d Hi).
    eapply lookup_weaken in Hi; [| apply Hsub]. by eapply Hahead.
  - rewrite Hb, Hn. apply Hahead.
Qed.

(** C3, amended.  Along a sequence of operations in which every frame
    submitted for the job carries an index at or above the job's
    [next_frame_to_write] at the time it is submitted, every index in the
    frame buffer stays at or above [next_frame_to_write] after each
    operation: no index below the counter is buffered.  A submission below
    the counter (an index flushed before, or a negative one) is outside
    this statement. *)
Theorem buffer_stays_ahead (ops : list Op) (st st' : State) (rs : list Response)
    (k : string) (job : ComposeExportJob) :
  run ops st = (rs, st') →
  compose_jobs st !! k = Some job →
  buffer_ahead job →
  submits_ahead k ops st →
  ∃ job', compose_jobs st' !! k = Some job' ∧ buffer_ahead job'.
Proof.
  revert st rs job. induction ops as [|o ops IH];
    intros st rs job Hrun Hjob Hahead Hsub; simpl in Hrun.
  { simplify_eq. by exists job. }
  destruct (step o st) as [r st1] eqn:Hstep.
  destruct (run ops st1) as [rs' st2] eqn:Hrest. simplify_eq.
  destruct Hsub as [Hhere Hlater]. rewrite Hstep in Hlater. simpl in Hlater.
  destruct (step_lookup _ _ _ _ _ _ Hstep Hjob) as (job1 & Hjob1 & Htrans).
  eapply IH; [done | done | | done].
  eapply job_trans_buffer_ahead; [done | done |].
  intros req -> Hid. by eapply Hhere.
Qed.

Lemma buffer_ahead_empty (job : ComposeExportJob) :
  frame_buffer job = ∅ → buffer_ahead job.
Proof. intros He i d. by rewrite He, lookup_empty. Qed.

Lemma sample_session_submits_ahead : submits_ahead "j1" Sample.session Sample.created.
Proof.
  simpl. split_and!; try done.
  - intros req job [= <-] _ Hjob. vm_compute in Hjob. by injection Hjob as <-.
  - intros req job [= <-] _ Hjob. vm_compute in Hjob. by injection Hjob as <-.
Qed.

Lemma buffer_stays_ahead_witness :
  compose_jobs Sample.created !! "j1" = Some Sample.job
  ∧ buffer_ahead Sample.job
  ∧ submits_ahead "j1" Sample.session Sample.created
  ∧ ∃ job', compose_jobs (run Sample.session Sample.created).2 !! "j1" = Some job'
            ∧ buffer_ahead job'.
Proof.
  split; [reflexivity |].
  split; [apply buffer_ahead_empty; reflexivity |].
  split; [apply sample_session_submits_ahead |].
  apply (buffer_stays_ahead Sample.session Sample.created
           (run Sample.session Sample.created).2
           (run Sample.session Sample.created).1 "j1" Sample.job).
  - apply surjective_pairing.
  - reflexivity.
  - apply buffer_ahead_empty; reflexivity.
  - apply sample_session_submits_ahead.
Defined.

(** A job that is still [encoding] never has its next index buffered: the
    loop of the frame handler runs until that is so. *)
Lemma job_trans_drained (k : string) (job job' : ComposeExportJob) (o : Op) :
  job_trans k job job' o →
  (status job = st_encoding → drained job) →
  status job' = st_encoding → drained job'.
Proof.
  unfold drained.
  intros [o' (Hb & Hn & _) Hst|req d b _ _ _ Hbw|jobId env _ _ Hne|_ Hst] Hdr Henc.
  - rewrite Hb, Hn. apply Hdr. congruence.
  - apply buffer_and_write_spec in Hbw as (_ & _ & Hst & _ & _ & Hd).
    destruct b; [by rewrite Hst in Henc | by apply Hd].
  - done.
  - by rewrite Hst in Henc.
Qed.

Lemma encoding_jobs_are_drained (ops : list Op) (st st' : State) (rs : list Response)
    (k : string) (job job' : ComposeExportJob) :
  run ops st = (rs, st') →
  compose_jobs st !! k = Some job →
  (status job = st_encoding → drained job) →
  compose_jobs st' !! k = Some job' →
  status job' = st_encoding → drained job'.
Proof.
  revert st rs job. induction ops as [|o ops IH];
    intros st rs job Hrun Hjob Hdr Hjob'; simpl in Hrun.
  { simplify_eq. done. }
  destruct (step o st) as [r st1] eqn:Hstep.
  destruct (run ops st1) as [rs' st2] eqn:Hrest. simplify_eq.
  destruct (step_lookup _ _ _ _ _ _ Hstep Hjob) as (job1 & Hjob1 & Htrans).
  eapply IH; [done | done | | done].
  by eapply job_trans_drained.
Qed.

(** C2, as the specification states it, fails: frame 0 submitted twice is
    accepted twice and counted twice, for one distinct index; the encoder
    has been given the frame once. *)
Lemma resubmission_counts_twice :
  let r_st := run (map (submission "j1") [(0, Sample.f0); (0, Sample.f0)])
                  Sample.created in
  r_st.1 = [r_frame 1; r_frame 2]
  ∧ (frames_received <$> Sample.the_job r_st.2) = Some 2
  ∧ (stdin_log <$> Sample.the_job r_st.2) = Some [Sample.f0].
Proof. vm_compute. done. Qed.

(** C2, amended.  A frame whose index is below [next_frame_to_write], sent
    to an encoding job with the right payload size, is accepted; it writes
    nothing to the encoder's input and leaves [next_frame_to_write] as it
    is, but it is not a no-op: [frames_received] goes up by one, as for
    every accepted submission, and the payload is stored in the buffer
    under that index. *)
Theorem resubmission_of_flushed_index (st : State) (jid : string)
    (job : ComposeExportJob) (idx : Z) (d : bytes) :
  jid ≠ "" →
  compose_jobs st !! jid = Some job →
  status job = st_encoding →
  process_has_stdin job = true →
  len d = expected_size job →
  drained job →
  idx < next_frame_to_write job →
  ∃ job',
    ffmpeg_export_frame
      {| fr_jobId := Some jid; fr_frameIndex := idx; fr_data := data_decoded d |} st
    = (r_frame (frames_received job + 1), put_job jid job' st)
    ∧ stdin_log job' = stdin_log job
    ∧ next_frame_to_write job' = next_frame_to_write job
    ∧ frames_received job' = frames_received job + 1
    ∧ frame_buffer job' = <[idx := d]> (frame_buffer job).
Proof.
  intros Hne Hjob Hst Hp Hlen Hdr Hidx.
  unfold ffmpeg_export_frame. cbn [fr_jobId fr_frameIndex fr_data].
  rewrite (find_job_lookup st jid job Hne Hjob). simpl.
  rewrite bool_decide_eq_true_2 by done. rewrite Hp. simpl.
  rewrite Hlen, Z.eqb_refl. simpl.
  assert (Hbw : buffer_and_write idx d job
                = (set_frames_received (frames_received job + 1)
                     (set_frame_buffer (<[idx := d]> (frame_buffer job)) job), false)).
  { unfold buffer_and_write. simpl.
    destruct (size (<[idx := d]> (frame_buffer job))) as [|fuel]; simpl; [done |].
    rewrite lookup_insert_ne by lia. unfold drained in Hdr. by rewrite Hdr. }
  rewrite Hbw. eexists. split; [reflexivity |]. done.
Qed.

Lemma resubmission_of_flushed_index_witness :
  let st1 := (run [submission "j1" (0, Sample.f0)] Sample.created).2 in
  let job1 := default Sample.job (Sample.the_job st1) in
  ∃ job',
    ffmpeg_export_frame
      {| fr_jobId := Some "j1"; fr_frameIndex := 0; fr_data := data_decoded Sample.f0 |} st1
    = (r_frame (frames_received job1 + 1), put_job "j1" job' st1)
    ∧ stdin_log job' = stdin_log job1
    ∧ next_frame_to_write job' = next_frame_to_write job1
    ∧ frames_received job' = frames_received job1 + 1
    ∧ frame_buffer job' = <[0 := Sample.f0]> (frame_buffer job1).
Proof.
  intros st1 job1.
  apply (resubmission_of_flushed_index st1 "j1" job1 0 Sample.f0).
  - discriminate.
  - vm_compute. reflexivity.
  - vm_compute. reflexivity.
  - vm_compute. reflexivity.
  - vm_compute. reflexivity.
  - vm_compute. reflexivity.
  - vm_compute. reflexivity.
Defined.

(** ** Finalize *)

(** The flush loop assigns the buffer, the counter and (through the writes)
    the process handle, and nothing else. *)
Lemma flush_frames_shape (fuel : nat) (job : ComposeExportJob) :
  ∃ p b n,
    flush_frames fuel job
    = set_next_frame_to_write n (set_frame_buffer b (set_process p job))
    ∧ (is_Some (process job) → is_Some p).
Proof.
  revert job. induction fuel as [|fuel IH]; intros job; simpl.
  { exists (process job), (frame_buffer job), (next_frame_to_write job).
    split; [by destruct job | done]. }
  destruct (frame_buffer job !! next_frame_to_write job) as [data|].
  2:{ exists (process job), (frame_buffer job), (next_frame_to_write job).
      split; [by destruct job | done]. }
  set (job1 := set_frame_buffer _ job).
  assert (∃ p2, (if process_has_stdin job1
                 then match stdin_write data job1 with Some j => j | None => job1 end
                 else job1) = set_process p2 job1
                ∧ (is_Some (process job) → is_Some p2)) as (p2 & -> & Hp2).
  { destruct (process_has_stdin job1).
    - destruct (stdin_write data job1) as [j|] eqn:Hw.
      + apply stdin_write_Some in Hw as (p & -> & _). exists (Some p). by split.
      + exists (process job). split; [by destruct job | done].
    - exists (process job). split; [by destruct job | done]. }
  destruct (IH (set_next_frame_to_write (next_frame_to_write (set_process p2 job1) + 1)
                  (set_process p2 job1))) as (p & b & n & -> & Hp).
  exists p, b, n. split; [by destruct job |].
  intros Hs. apply Hp. simpl. by apply Hp2.
Qed.

Lemma close_stdin_shape (job : ComposeExportJob) :
  ∃ p, close_stdin job = set_process p job
       ∧ (is_Some (process job) → is_Some p).
Proof.
  unfold close_stdin. destruct (process job) as [q|] eqn:Hq.
  - destruct (stdin q).
    + eexists. split; [reflexivity | done].
    + exists (Some q). split; [by destruct job; simpl in *; subst | done].
  - exists None. split; [by destruct job; simpl in *; subst | done].
Qed.






Example mux_failure_outcome :
  let r_st := ffmpeg_export_finalize (Some "j1") Sample.mux_fails Sample.with_audio in
  r_st.1 = r_finalize 2 Sample.out
  ∧ files r_st.2 !! Sample.out = Some Sample.video_bytes
  ∧ files r_st.2 !! Sample.video = None
  ∧ is_Some (files r_st.2 !! Sample.audio)
  ∧ (status <$> Sample.the_job r_st.2) = Some st_done.
Proof. vm_compute. split_and!; try done. by eexists. Qed.

(** ** Reassembly: out-of-order submissions, in-order writes *)

Section reassembly.
Context (M : gmap Z bytes) (log0 : list bytes).

Lemma seqZ_snoc (n : Z) : 0 ≤ n → seqZ 0 (n + 1) = (seqZ 0 n ++ [n])%list.
Proof.
  intros Hn. rewrite seqZ_app by lia. reflexivity.
Qed.

Lemma reassembled_ext (S S' : gset Z) (job : ComposeExportJob) :
  (∀ i, i ∈ S ↔ i ∈ S') →
  reassembled M S log0 job → reassembled M S' log0 job.
Proof.
  intros Hext (H0 & Hbelow & Hdom & Hval & Hwritten).
  unfold reassembled. split_and!; try done.
  - intros i Hi. by apply Hext, Hbelow.
  - intros i. by rewrite <- Hext.
Qed.

(** The loop keeps the invariant, one written frame at a time. *)
Lemma reassembled_loop (S : gset Z) (fuel : nat) (job j' : ComposeExportJob) :
  reassembled M S log0 job →
  write_sequential_frames fuel job = (j', false) →
  reassembled M S log0 j'.
Proof.
  revert job. induction fuel as [|fuel IH]; intros job Hinv Hrun; simpl in Hrun.
  { by simplify_eq. }
  destruct (frame_buffer job !! next_frame_to_write job) as [data|] eqn:Hnext.
  2:{ by simplify_eq. }
  destruct (stdin_write data _) as [job2|] eqn:Hw; [| by simplify_eq].
  apply stdin_write_Some in Hw as (p & -> & Hlog).
  apply IH in Hrun; [done |]. clear IH Hrun.
  destruct Hinv as (H0 & Hbelow & Hdom & Hval & Hwritten).
  change (stdin_log (set_frame_buffer (delete (next_frame_to_write job) (frame_buffer job)) job))
    with (stdin_log job) in Hlog.
  unfold reassembled.
  cbn [next_frame_to_write frame_buffer set_next_frame_to_write set_process
       set_frame_buffer].
  split_and!.
  - lia.
  - intros i Hi. destruct (decide (i = next_frame_to_write job)) as [->|Hne].
    + apply Hdom. by eexists.
    + apply Hbelow. lia.
  - intros i. destruct (decide (i = next_frame_to_write job)) as [->|Hne].
    + rewrite lookup_delete_eq. split; [by intros [? ?] | lia].
    + rewrite lookup_delete_ne by done. rewrite Hdom.
      split; intros [? ?]; (split; [done | lia]).
  - intros i d Hi. apply Hval. eapply lookup_weaken; [done | apply delete_subseteq].
  - match goal with |- stdin_log ?j = _ =>
      change (stdin_log j)
        with (stdin_log (set_process (Some p)
                (set_frame_buffer (delete (next_frame_to_write job) (frame_buffer job)) job)))
    end.
    rewrite Hlog, Hwritten, seqZ_snoc, map_app, <- app_assoc by done.
    cbn [map]. do 3 f_equal. unfold payload_at. by rewrite (Hval _ _ Hnext).
Qed.

(** One accepted submission of an index not submitted before. *)
Lemma reassembled_submit (S : gset Z) (i : Z) (d : bytes)
    (job j' : ComposeExportJob) :
  reassembled M S log0 job →
  M !! i = Some d → 0 ≤ i → i ∉ S →
  buffer_and_write i d job = (j', false) →
  reassembled M ({[i]} ∪ S) log0 j' ∧ drained j'.
Proof.
  intros Hinv HM Hi HS Hbw. split.
  2:{ apply buffer_and_write_spec in Hbw as (_ & _ & _ & _ & _ & Hd). by apply Hd. }
  unfold buffer_and_write in Hbw. eapply reassembled_loop; [| done].
  destruct Hinv as (H0 & Hbelow & Hdom & Hval & Hwritten).
  assert (Hge : next_frame_to_write job ≤ i).
  { destruct (decide (next_frame_to_write job ≤ i)); [done |].
    destruct HS. apply Hbelow. lia. }
  unfold reassembled. simpl. split_and!.
  - done.
  - intros i' Hi'. apply elem_of_union_r, Hbelow, Hi'.
  - intros i'. destruct (decide (i' = i)) as [->|Hne].
    + rewrite lookup_insert_eq. split; [intros _ | by eexists].
      split; [by apply elem_of_union_l, elem_of_singleton | done].
    + rewrite lookup_insert_ne by done.
      rewrite Hdom, elem_of_union, elem_of_singleton. split.
      * intros [? ?]. split; [by right | done].
      * intros [[?|?] ?]; [done | by split].
  - intros i' d'. destruct (decide (i' = i)) as [->|Hne].
    + rewrite lookup_insert_eq. congruence.
    + rewrite lookup_insert_ne by done. apply Hval.
  - done.
Qed.

(** A run of accepted submissions of distinct, new indices. *)
Lemma reassembled_run (jid : string) (subs : list (Z * bytes)) :
  ∀ (S : gset Z) (st st' : State) (rs : list Response) (job : ComposeExportJob),
    run (map (submission jid) subs) st = (rs, st') →
    Forall accepted rs →
    compose_jobs st !! jid = Some job →
    reassembled M S log0 job → drained job →
    (∀ s, s ∈ subs → M !! s.1 = Some s.2 ∧ 0 ≤ s.1 ∧ s.1 ∉ S) →
    NoDup subs.*1 →
    ∃ job', compose_jobs st' !! jid = Some job'
            ∧ reassembled M (list_to_set subs.*1 ∪ S) log0 job'
            ∧ drained job'
            ∧ frames_received job' = frames_received job + Z.of_nat (length subs).
Proof.
  induction subs as [|[i d] subs IH];
    intros S st st' rs job Hrun Hacc Hjob Hinv Hdr Hsubs Hnd; simpl in Hrun.
  { simplify_eq. exists job. split_and!; try done; [| simpl; lia].
    eapply reassembled_ext; [| done].
    intros x. rewrite elem_of_union, elem_of_list_to_set, elem_of_nil. tauto. }
  destruct (ffmpeg_export_frame _ st) as [r st1] eqn:Hstep.
  destruct (run _ st1) as [rs' st2] eqn:Hrest. simplify_eq.
  apply Forall_cons in Hacc as [Hr Hacc].
  apply frame_cases in Hstep
    as [[_ Hno]|(k & j & j1 & d' & b & Hfind & _ & _ & Hd & _ & Hbw & -> & Hresp)];
    [done |].
  cbn [fr_jobId fr_frameIndex fr_data fst snd] in Hfind, Hd, Hbw.
  apply find_job_Some in Hfind as (Hk & _ & Hj).
  assert (k = jid) as -> by congruence.
  assert (j = job) as -> by congruence.
  assert (d' = d) as -> by congruence.
  destruct b; [done |].
  destruct (Hsubs (i, d)) as (HM & Hi & HS); [apply elem_of_cons; by left |].
  simpl in HM, Hi, HS.
  apply NoDup_cons in Hnd as [Hfresh Hnd].
  destruct (reassembled_submit S i d job j1 Hinv HM Hi HS Hbw) as [Hinv1 Hdr1].
  destruct (IH ({[i]} ∪ S) (put_job jid j1 st) st' rs' j1) as (job' & Hjob' & Hinv' & Hdr' & Hfr');
    try done.
  { simpl. apply lookup_insert_eq. }
  { intros s Hs. destruct (Hsubs s) as (? & ? & ?); [apply elem_of_cons; by right |].
    split_and!; try done.
    intros [Heq%elem_of_singleton|?]%elem_of_union; [| done].
    apply Hfresh. rewrite <- Heq. apply list_elem_of_fmap. by exists s. }
  exists job'. split_and!; try done.
  - eapply reassembled_ext; [| done].
    intros x. rewrite !elem_of_union, !elem_of_list_to_set, fmap_cons, elem_of_cons,
      elem_of_singleton. simpl. tauto.
  - apply buffer_and_write_spec in Hbw as (Hfr1 & _). simpl length. lia.
Qed.

End reassembly.

(** *** Sorting the submissions by index *)

#[global] Instance index_le_trans : Transitive index_le.
Proof. intros a b c. unfold index_le. lia. Qed.

#[global] Instance index_le_total : Total index_le.
Proof. intros a b. unfold index_le. lia. Qed.

Lemma seq_strongly_sorted (start k : nat) : StronglySorted le (seq start k).
Proof.
  revert start. induction k as [|k IH]; intros start; simpl; constructor; [apply IH |].
  apply List.Forall_forall. intros x Hx%in_seq. lia.
Qed.

Lemma seqZ_strongly_sorted (m n : Z) : StronglySorted Z.le (seqZ m n).
Proof.
  unfold seqZ. eapply StronglySorted_fmap; [| apply seq_strongly_sorted].
  intros x y Hxy. simpl. lia.
Qed.

Lemma sorted_indices (subs : list (Z * bytes)) (N : Z) :
  subs.*1 ≡ₚ seqZ 0 N → (sort_by_index subs).*1 = seqZ 0 N.
Proof.
  intros Hperm. apply (StronglySorted_unique Z.le).
  - eapply StronglySorted_fmap; [| apply (StronglySorted_merge_sort index_le)].
    intros x y Hxy. exact Hxy.
  - apply seqZ_strongly_sorted.
  - rewrite <- Hperm. apply fmap_Permutation, merge_sort_Permutation.
Qed.

Lemma payloads_of_indices (M : gmap Z bytes) (l : list (Z * bytes)) :
  (∀ s, s ∈ l → M !! s.1 = Some s.2) →
  l.*2 = map (payload_at M) l.*1.
Proof.
  induction l as [|[i d] l IH]; intros Hl; [done |]. simpl. f_equal.
  - assert (Hid : M !! i = Some d).
    { apply (Hl (i, d)), elem_of_cons. by left. }
    unfold payload_at. by rewrite Hid.
  - apply IH. intros s Hs. apply Hl, elem_of_cons. by right.
Qed.

Lemma sorted_payloads (subs : list (Z * bytes)) (N : Z) :
  subs.*1 ≡ₚ seqZ 0 N →
  (sort_by_index subs).*2 = map (payload_at (list_to_map subs)) (seqZ 0 N).
Proof.
  intros Hperm. rewrite <- (sorted_indices subs N Hperm).
  apply payloads_of_indices. intros [i d] Hs. simpl.
  apply elem_of_list_to_map_1.
  - rewrite Hperm. apply NoDup_seqZ.
  - revert Hs. unfold sort_by_index. by rewrite merge_sort_Permutation.
Qed.

(** C1.  Take a job in [encoding] state that has not been sent a frame yet
    (counter 0, empty buffer), and any sequence of frame submissions whose
    indices are a permutation of [0..N-1], all of them accepted.  Then the
    chunks written to the encoder's input during the sequence are the
    payloads sorted by index, one write per index; so the bytes the
    encoder has received are the concatenation of the frames in index
    order, whatever the order of arrival.  The counter ends at the number
    of frames, the buffer ends empty, and [frames_received] has grown by
    the number of frames. *)
Theorem frames_reach_encoder_in_index_order (st st' : State) (jid : string)
    (job : ComposeExportJob) (subs : list (Z * bytes)) (N : Z) (rs : list Response) :
  compose_jobs st !! jid = Some job →
  status job = st_encoding →
  next_frame_to_write job = 0 →
  frame_buffer job = ∅ →
  subs.*1 ≡ₚ seqZ 0 N →
  run (map (submission jid) subs) st = (rs, st') →
  Forall accepted rs →
  ∃ job',
    compose_jobs st' !! jid = Some job'
    ∧ stdin_log job' = (stdin_log job ++ (sort_by_index subs).*2)%list
    ∧ stdin_bytes job' = (stdin_bytes job ++ concat (sort_by_index subs).*2)%list
    ∧ next_frame_to_write job' = Z.of_nat (length subs)
    ∧ frame_buffer job' = ∅
    ∧ frames_received job' = frames_received job + Z.of_nat (length subs).
Proof.
  intros Hjob Hst Hnext Hbuf Hperm Hrun Hacc.
  set (M := list_to_map subs : gmap Z bytes).
  assert (Hnd : NoDup subs.*1) by (rewrite Hperm; apply NoDup_seqZ).
  assert (Hlen : Z.of_nat (length subs) = Z.max 0 N).
  { rewrite <- (length_fmap fst), Hperm, length_seqZ. lia. }
  assert (Hinit : reassembled M ∅ (stdin_log job) job).
  { unfold reassembled. rewrite Hnext, Hbuf. split_and!.
    - done.
    - intros i Hi. lia.
    - intros i. rewrite lookup_empty. split; [by intros [? ?] | by intros [?%elem_of_empty _]].
    - intros i d. by rewrite lookup_empty.
    - by rewrite seqZ_nil, app_nil_r by done. }
  assert (Hdr : drained job) by (unfold drained; by rewrite Hbuf, lookup_empty).
  destruct (reassembled_run M (stdin_log job) jid subs ∅ st st' rs job)
    as (job' & Hjob' & Hinv & Hdr' & Hfr); try done.
  { intros s Hs. split_and!.
    - apply elem_of_list_to_map_1; [done |]. by destruct s.
    - assert (s.1 ∈ seqZ 0 N) as Hin; [| apply elem_of_seqZ in Hin; lia].
      rewrite <- Hperm. apply list_elem_of_fmap. by exists s.
    - apply not_elem_of_empty. }
  destruct Hinv as (H0 & Hbelow & Hdom & Hval & Hwritten).
  assert (Hmem : ∀ i, i ∈ (list_to_set subs.*1 ∪ ∅ : gset Z) ↔ 0 ≤ i < N).
  { intros i. rewrite elem_of_union, elem_of_list_to_set, Hperm, elem_of_seqZ, elem_of_empty.
    split; [intros [?|[]] | intros ?; left]; lia. }
  assert (Hge : ¬ (0 ≤ next_frame_to_write job' < N)).
  { intros Hin. apply Hmem in Hin.
    assert (is_Some (frame_buffer job' !! next_frame_to_write job')) as [d Hd].
    { apply Hdom. split; [done | lia]. }
    unfold drained in Hdr'. congruence. }
  assert (Hle : next_frame_to_write job' = Z.max 0 N).
  { destruct (decide (next_frame_to_write job' = 0)) as [Hz|Hnz]; [lia |].
    assert (0 ≤ next_frame_to_write job' - 1 < N); [| lia].
    apply Hmem, Hbelow. lia. }
  assert (Hseq : seqZ 0 (next_frame_to_write job') = seqZ 0 N).
  { rewrite Hle. destruct (decide (0 ≤ N)).
    - by rewrite Z.max_r by done.
    - rewrite Z.max_l by lia. by rewrite !seqZ_nil by lia. }
  assert (Hlog : stdin_log job' = (stdin_log job ++ (sort_by_index subs).*2)%list).
  { by rewrite Hwritten, Hseq, (sorted_payloads subs N Hperm). }
  exists job'. split_and!; try done.
  - unfold stdin_bytes. by rewrite Hlog, concat_app.
  - lia.
  - apply map_empty. intros i.
    destruct (frame_buffer job' !! i) eqn:Hi; [| done].
    assert (i ∈ (list_to_set subs.*1 ∪ ∅ : gset Z) ∧ next_frame_to_write job' ≤ i) as [Hin Hni].
    { apply Hdom. by eexists. }
    apply Hmem in Hin. lia.
Qed.

Lemma frames_reach_encoder_in_index_order_witness :
  let subs := [(2, Sample.f2); (0, Sample.f0); (1, Sample.f1)] in
  let r_st := run (map (submission "j1") subs) Sample.created in
  ∃ job',
    compose_jobs r_st.2 !! "j1" = Some job'
    ∧ stdin_log job' = (stdin_log Sample.job ++ (sort_by_index subs).*2)%list
    ∧ stdin_bytes job' = (stdin_bytes Sample.job ++ concat (sort_by_index subs).*2)%list
    ∧ next_frame_to_write job' = Z.of_nat (length subs)
    ∧ frame_buffer job' = ∅
    ∧ frames_received job' = frames_received Sample.job + Z.of_nat (length subs).
Proof.
  intros subs r_st.
  apply (frames_reach_encoder_in_index_order Sample.created r_st.2 "j1" Sample.job
           subs 3 r_st.1).
  - reflexivity.
  - reflexivity.
  - reflexivity.
  - reflexivity.
  - change (subs.*1) with [2; 0; 1]. change (seqZ 0 3) with [0; 1; 2].
    apply Permutation_sym.
    apply perm_trans with [0; 2; 1]; [apply perm_skip, perm_swap | apply perm_swap].
  - apply surjective_pairing.
  - vm_compute. repeat constructor.
Defined.

Example sorted_scenario :
  (sort_by_index [(2, Sample.f2); (0, Sample.f0); (1, Sample.f1)]).*2
  = [Sample.f0; Sample.f1; Sample.f2].
Proof. vm_compute. reflexivity. Qed.

(** *** Submissions are accepted while the pipe holds *)

Lemma write_sequential_frames_open (fuel : nat) (job : ComposeExportJob) :
  pipe_open job →
  ∃ j', write_sequential_frames fuel job = (j', false)
        ∧ pipe_open j'
        ∧ expected_size j' = expected_size job.
Proof.
  revert job. induction fuel as [|fuel IH]; intros job Hopen; simpl.
  { by exists job. }
  destruct (frame_buffer job !! next_frame_to_write job) as [data|]; [| by exists job].
  destruct Hopen as (p & w & Hp & Hw & Hc & Hcap).
  unfold stdin_write. cbn [process set_frame_buffer]. rewrite Hp. simpl.
  rewrite Hw. simpl. unfold writer_write. rewrite Hc, Hcap. simpl.
  match goal with |- context [write_sequential_frames fuel ?j] =>
    destruct (IH j) as (j' & Hrun & Hopen' & Hsize) end.
  { eexists _, _. simpl. split_and!; done. }
  exists j'. split_and!; done.
Qed.

Lemma frame_accepted_when_open (st : State) (jid : string) (job : ComposeExportJob)
    (s : Z * bytes) :
  jid ≠ "" →
  compose_jobs st !! jid = Some job →
  status job = st_encoding →
  pipe_open job →
  len s.2 = expected_size job →
  ∃ job', step (submission jid s) st = (r_frame (frames_received job'), put_job jid job' st)
          ∧ status job' = st_encoding
          ∧ pipe_open job'
          ∧ expected_size job' = expected_size job.
Proof.
  intros Hne Hjob Hst Hopen Hlen. simpl. unfold ffmpeg_export_frame.
  cbn [fr_jobId fr_frameIndex fr_data].
  rewrite (find_job_lookup st jid job Hne Hjob).
  rewrite bool_decide_eq_true_2 by done. cbn [negb].
  assert (Hp : process_has_stdin job = true).
  { destruct Hopen as (p & w & Hp & Hw & _). unfold process_has_stdin. by rewrite Hp, Hw. }
  rewrite Hp, Hlen, Z.eqb_refl. cbn [negb].
  unfold buffer_and_write.
  match goal with |- context [write_sequential_frames ?f ?j] =>
    destruct (write_sequential_frames_open f j) as (j' & Hrun & Hopen' & Hsize);
      [exact Hopen |]; pose proof Hrun as Hspec; rewrite Hrun
  end.
  apply write_sequential_frames_spec in Hspec as (_ & _ & Hst' & _).
  exists j'. split_and!; try done. simpl in Hst'. congruence.
Qed.

(** While the job is encoding and the pipe holds, every submission with a
    payload of the right size is accepted. *)
Lemma submissions_accepted (jid : string) (subs : list (Z * bytes)) :
  ∀ (st : State) (job : ComposeExportJob),
    jid ≠ "" →
    compose_jobs st !! jid = Some job →
    status job = st_encoding →
    pipe_open job →
    Forall (λ s, len s.2 = expected_size job) subs →
    Forall accepted (run (map (submission jid) subs) st).1.
Proof.
  induction subs as [|s subs IH]; intros st job Hne Hjob Hst Hopen Hsizes; simpl.
  { constructor. }
  apply Forall_cons in Hsizes as [Hs Hsizes].
  destruct (frame_accepted_when_open st jid job s Hne Hjob Hst Hopen Hs)
    as (job' & Hstep & Hst' & Hopen' & Hsize').
  simpl in Hstep. rewrite Hstep.
  specialize (IH (put_job jid job' st) job' Hne).
  destruct (run _ (put_job jid job' st)) as [rs st2] eqn:Hrun. simpl.
  constructor; [done |].
  apply IH; try done.
  - simpl. apply lookup_insert_eq.
  - by rewrite Hsize'.
Qed.

(** * Further properties of the handlers *)

(** ** The frame handler: refusals, failed writes, counting *)

Lemma write_sequential_frames_failed (fuel : nat) (job j' : ComposeExportJob) :
  write_sequential_frames fuel job = (j', true) →
  status j' = st_error
  ∧ error j' = Some (err_write_frame (next_frame_to_write j'))
  ∧ frame_buffer j' !! next_frame_to_write j' = None.
Proof.
  revert job. induction fuel as [|fuel IH]; intros job Hrun; simpl in Hrun; [done |].
  destruct (frame_buffer job !! next_frame_to_write job) as [data|]; [| done].
  destruct (stdin_write data _) as [job2|].
  - by apply IH in Hrun.
  - injection Hrun as <-. simpl. split_and!; try done. apply lookup_delete_eq.
Qed.

(** X1.  A frame request that is answered with an error other than a
    failed write (unknown job, job not encoding, missing data, no encoder
    pipe, bad base64, wrong payload size) leaves the server state exactly
    as it was. *)
Theorem frame_refusal_leaves_state (req : FrameRequest) (st st' : State)
    (e : ApiError) (code : Z) :
  ffmpeg_export_frame req st = (JSONResponse e code, st') →
  (∀ n, e ≠ e_job_error (err_write_frame n)) →
  st' = st.
Proof.
  unfold ffmpeg_export_frame. intros H Hnot.
  destruct (find_job (fr_jobId req) st) as [[jid job]|]; [| by simplify_eq].
  destruct (negb _); [by simplify_eq |].
  destruct (fr_data req) as [| |d]; [by simplify_eq | |].
  { destruct (negb _); by simplify_eq. }
  destruct (negb (process_has_stdin job)); [by simplify_eq |].
  destruct (negb (len d =? expected_size job)); [by simplify_eq |].
  destruct (buffer_and_write _ _ _) as [job' [|]]; simplify_eq.
  by destruct (Hnot (next_frame_to_write job')).
Qed.

Lemma frame_refusal_leaves_state_witness :
  (ffmpeg_export_frame Cases.short_frame Sample.created).2 = Sample.created.
Proof.
  apply (frame_refusal_leaves_state Cases.short_frame Sample.created
           (ffmpeg_export_frame Cases.short_frame Sample.created).2
           (e_size_mismatch 2 64) 400).
  - vm_compute. reflexivity.
  - intros n. discriminate.
Defined.

(** X2.  When a write to the encoder raises, the frame handler answers 500
    and leaves the job in [error] with the message naming the frame it was
    writing; that frame has already been taken out of the buffer and the
    counter still points at it, [frames_received] has been incremented all
    the same, and no file is touched. *)
Theorem frame_write_failure (req : FrameRequest) (st st' : State) (n code : Z) :
  ffmpeg_export_frame req st
  = (JSONResponse (e_job_error (err_write_frame n)) code, st') →
  ∃ jid job job',
    fr_jobId req = Some jid
    ∧ compose_jobs st !! jid = Some job
    ∧ st' = put_job jid job' st
    ∧ code = 500
    ∧ status job' = st_error
    ∧ error job' = Some (err_write_frame n)
    ∧ next_frame_to_write job' = n
    ∧ frame_buffer job' !! n = None
    ∧ frames_received job' = frames_received job + 1.
Proof.
  unfold ffmpeg_export_frame. intros H.
  destruct (find_job (fr_jobId req) st) as [[jid job]|] eqn:Hfind; [| by simplify_eq].
  apply find_job_Some in Hfind as (Hid & _ & Hjob).
  destruct (negb _); [by simplify_eq |].
  destruct (fr_data req) as [| |d]; [by simplify_eq | |].
  { destruct (negb _); by simplify_eq. }
  destruct (negb (process_has_stdin job)); [by simplify_eq |].
  destruct (negb (len d =? expected_size job)); [by simplify_eq |].
  destruct (buffer_and_write _ _ _) as [job' [|]] eqn:Hbw; [| by simplify_eq].
  injection H as <- <- <-.
  pose proof (buffer_and_write_spec _ _ _ _ _ Hbw) as (Hfr & _).
  unfold buffer_and_write in Hbw.
  apply write_sequential_frames_failed in Hbw as (Hst & Herr & Hbuf).
  exists jid, job, job'. split_and!; done.
Qed.

Lemma frame_write_failure_witness :
  ∃ jid job job',
    fr_jobId Cases.frame0 = Some jid
    ∧ compose_jobs Cases.broken !! jid = Some job
    ∧ (ffmpeg_export_frame Cases.frame0 Cases.broken).2 = put_job jid job' Cases.broken
    ∧ 500 = 500
    ∧ status job' = st_error
    ∧ error job' = Some (err_write_frame 0)
    ∧ next_frame_to_write job' = 0
    ∧ frame_buffer job' !! 0 = None
    ∧ frames_received job' = frames_received job + 1.
Proof.
  apply (frame_write_failure Cases.frame0 Cases.broken
           (ffmpeg_export_frame Cases.frame0 Cases.broken).2 0 500).
  vm_compute. reflexivity.
Defined.

(** X3.  Every accepted frame submission increments [frames_received] by
    exactly one, whether the frame was written at once or only buffered,
    and the response carries the new count. *)
Theorem accepted_frame_counts_once (req : FrameRequest) (st st' : State) (count : Z) :
  ffmpeg_export_frame req st = (r_frame count, st') →
  ∃ jid job job',
    fr_jobId req = Some jid
    ∧ compose_jobs st !! jid = Some job
    ∧ st' = put_job jid job' st
    ∧ status job = st_encoding
    ∧ status job' = st_encoding
    ∧ frames_received job' = frames_received job + 1
    ∧ count = frames_received job'.
Proof.
  intros H.
  apply frame_cases in H
    as [[_ Hno]|(jid & job & job' & d & b & Hfind & Hst & _ & _ & _ & Hbw & -> & Hr)].
  { destruct Hno. exact I. }
  apply find_job_Some in Hfind as (Hid & _ & Hjob).
  destruct b; [destruct Hr; exact I |]. injection Hr as ->.
  apply buffer_and_write_spec in Hbw as (Hfr & _ & Hst' & _).
  exists jid, job, job'. split_and!; try done. congruence.
Qed.

Lemma accepted_frame_counts_once_witness :
  ∃ jid job job',
    fr_jobId Cases.frame2 = Some jid
    ∧ compose_jobs Sample.created !! jid = Some job
    ∧ (ffmpeg_export_frame Cases.frame2 Sample.created).2 = put_job jid job' Sample.created
    ∧ status job = st_encoding
    ∧ status job' = st_encoding
    ∧ frames_received job' = frames_received job + 1
    ∧ 1 = frames_received job'.
Proof.
  apply (accepted_frame_counts_once Cases.frame2 Sample.created
           (ffmpeg_export_frame Cases.frame2 Sample.created).2 1).
  vm_compute. reflexivity.
Defined.

(** X4.  A frame that arrives ahead of the counter, at a job whose next
    index is not buffered, is accepted and held back: it is stored in the
    buffer, nothing is written to the encoder and the counter does not
    move. *)
Theorem frame_ahead_is_held_back (st : State) (jid : string)
    (job : ComposeExportJob) (idx : Z) (d : bytes) :
  jid ≠ "" →
  compose_jobs st !! jid = Some job →
  status job = st_encoding →
  process_has_stdin job = true →
  len d = expected_size job →
  drained job →
  next_frame_to_write job < idx →
  ∃ job',
    ffmpeg_export_frame
      {| fr_jobId := Some jid; fr_frameIndex := idx; fr_data := data_decoded d |} st
    = (r_frame (frames_received job + 1), put_job jid job' st)
    ∧ stdin_log job' = stdin_log job
    ∧ next_frame_to_write job' = next_frame_to_write job
    ∧ frame_buffer job' = <[idx := d]> (frame_buffer job).
Proof.
  intros Hne Hjob Hst Hp Hlen Hdr Hidx.
  unfold ffmpeg_export_frame. cbn [fr_jobId fr_frameIndex fr_data].
  rewrite (find_job_lookup st jid job Hne Hjob). simpl.
  rewrite bool_decide_eq_true_2 by done. rewrite Hp. simpl.
  rewrite Hlen, Z.eqb_refl. simpl.
  assert (Hbw : buffer_and_write idx d job
                = (set_frames_received (frames_received job + 1)
                     (set_frame_buffer (<[idx := d]> (frame_buffer job)) job), false)).
  { unfold buffer_and_write. simpl.
    destruct (size (<[idx := d]> (frame_buffer job))) as [|fuel]; simpl; [done |].
    rewrite lookup_insert_ne by lia. unfold drained in Hdr. by rewrite Hdr. }
  rewrite Hbw. eexists. split; [reflexivity |]. done.
Qed.

Lemma frame_ahead_is_held_back_witness :
  ∃ job',
    ffmpeg_export_frame
      {| fr_jobId := Some "j1"; fr_frameIndex := 2; fr_data := data_decoded Sample.f2 |}
      Sample.created
    = (r_frame (frames_received Sample.job + 1), put_job "j1" job' Sample.created)
    ∧ stdin_log job' = stdin_log Sample.job
    ∧ next_frame_to_write job' = next_frame_to_write Sample.job
    ∧ frame_buffer job' = <[2 := Sample.f2]> (frame_buffer Sample.job).
Proof.
  apply (frame_ahead_is_held_back Sample.created "j1" Sample.job 2 Sample.f2).
  - discriminate.
  - reflexivity.
  - reflexivity.
  - reflexivity.
  - reflexivity.
  - reflexivity.
  - reflexivity.
Defined.

(** ** After cancel *)

(** X5.  Once a job has been cancelled, a frame submitted for it is refused
    with "Job not accepting frames" and finalize is refused with "Job not
    in encoding state", both with status code 400 and without changing the
    server state. *)
Theorem cancelled_job_refuses_frames_and_finalize (st : State) (jid : string)
    (job : ComposeExportJob) (req : FrameRequest) (env : FinalizeEnv) :
  jid ≠ "" →
  compose_jobs st !! jid = Some job →
  fr_jobId req = Some jid →
  let st1 := (ffmpeg_export_cancel jid st).2 in
  ffmpeg_export_frame req st1
  = (JSONResponse (e_not_accepting_frames st_cancelled) 400, st1)
  ∧ ffmpeg_export_finalize (Some jid) env st1
    = (JSONResponse (e_not_in_encoding_state st_cancelled) 400, st1).
Proof.
  intros Hne Hjob Hreq st1.
  assert (∃ job1, compose_jobs st1 !! jid = Some job1 ∧ status job1 = st_cancelled)
    as (job1 & Hjob1 & Hst1).
  { subst st1. unfold ffmpeg_export_cancel. rewrite Hjob. simpl.
    rewrite lookup_insert_eq. eexists. split; [reflexivity | done]. }
  clearbody st1. split.
  - unfold ffmpeg_export_frame. rewrite Hreq.
    rewrite (find_job_lookup st1 jid job1 Hne Hjob1).
    rewrite bool_decide_eq_false_2 by (rewrite Hst1; discriminate).
    simpl. by rewrite Hst1.
  - unfold ffmpeg_export_finalize.
    rewrite (find_job_lookup st1 jid job1 Hne Hjob1).
    rewrite bool_decide_eq_false_2 by (rewrite Hst1; discriminate).
    simpl. by rewrite Hst1.
Qed.

Lemma cancelled_job_refuses_frames_and_finalize_witness :
  let st1 := (ffmpeg_export_cancel "j1" Sample.created).2 in
  ffmpeg_export_frame Cases.frame0 st1
  = (JSONResponse (e_not_accepting_frames st_cancelled) 400, st1)
  ∧ ffmpeg_export_finalize (Some "j1") Sample.encode_ok st1
    = (JSONResponse (e_not_in_encoding_state st_cancelled) 400, st1).
Proof.
  apply (cancelled_job_refuses_frames_and_finalize Sample.created "j1" Sample.job
           Cases.frame0 Sample.encode_ok).
  - discriminate.
  - reflexivity.
  - reflexivity.
Defined.

(** ** Finalize, branch by branch *)

(** The first part of finalize, up to the wait for the encoder: what is
    left is the job with its status, buffer, counter and process handle
    assigned, and the process is still there. *)
Ltac enter_finalize Hne Hjob Hst Hp :=
  unfold ffmpeg_export_finalize;
  rewrite (find_job_lookup _ _ _ Hne Hjob);
  rewrite bool_decide_eq_true_2 by exact Hst;
  cbn [negb];
  match goal with
  | |- context [flush_frames ?f ?j] =>
      let p2 := fresh "p2" in
      let b2 := fresh "b2" in
      let n2 := fresh "n2" in
      let Hp2 := fresh "Hp2" in
      destruct (flush_frames_shape f j) as (p2 & b2 & n2 & -> & Hp2);
      match goal with
      | |- context [close_stdin ?j3] =>
          let p3 := fresh "p3" in
          let Hp3 := fresh "Hp3" in
          let q := fresh "q" in
          let Hq := fresh "Hq" in
          destruct (close_stdin_shape j3) as (p3 & -> & Hp3);
          destruct Hp3 as [q Hq];
          [simpl; apply Hp2; simpl; rewrite Hp; by eexists |];
          subst p3; cbn [process set_process]
      end
  end.

Lemma exists_file_true (path : string) (f : gmap string bytes) (b : bytes) :
  f !! path = Some b → exists_file path f = true.
Proof. intros H. unfold exists_file. apply bool_decide_eq_true_2. by eexists. Qed.

(** X6.  Finalize of a job without audio, when the wait for the encoder
    returns (its output stream is at its end) with exit code 0 and the
    encoder has left the video-only file: the answer is success with the
    size of that file, the job is [done], the output path holds the video
    bytes and the video-only path is gone (the file was moved, not
    copied); no other file changes. *)
Theorem finalize_without_audio_moves_video (st : State) (jid : string)
    (job : ComposeExportJob) (env : FinalizeEnv) (p : Process) (tail : string)
    (v : bytes) :
  jid ≠ "" →
  compose_jobs st !! jid = Some job →
  status job = st_encoding →
  process job = Some p →
  fe_encoder_exit env = wait_exited 0 tail →
  fe_video_file env = Some v →
  audio_path job = None →
  video_only_path job ≠ output_path job →
  ∃ st' job',
    ffmpeg_export_finalize (Some jid) env st
    = (r_finalize (len v) (output_path job), st')
    ∧ compose_jobs st' !! jid = Some job'
    ∧ status job' = st_done
    ∧ files st' !! output_path job = Some v
    ∧ files st' !! video_only_path job = None
    ∧ ∀ path, path ≠ output_path job → path ≠ video_only_path job →
              files st' !! path = files st !! path.
Proof.
  intros Hne Hjob Hst Hp Henc Hv Ha Hpaths.
  enter_finalize Hne Hjob Hst Hp.
  rewrite Henc, Hv. cbn [negb Z.eqb file_left_by].
  set (job4 := set_process _ _).
  change (video_only_path (set_process (Some q) _)) with (video_only_path job).
  change (video_only_path job4) with (video_only_path job).
  change (output_path job4) with (output_path job).
  assert (E : has_audio job4 (<[video_only_path job := v]> (files st)) = false).
  { unfold has_audio. change (audio_path job4) with (audio_path job). by rewrite Ha. }
  rewrite E.
  rewrite (exists_file_true _ _ v) by apply lookup_insert_eq.
  unfold move. destruct (String.eqb_spec (video_only_path job) (output_path job)); [done |].
  rewrite lookup_insert_eq. unfold report_done.
  change (output_path job4) with (output_path job). rewrite lookup_insert_eq.
  eexists _, _. split; [reflexivity |]. simpl. rewrite !lookup_insert_eq.
  split_and!; try done.
  - rewrite lookup_insert_ne by done. apply lookup_delete_eq.
  - intros path Hout Hvid.
    rewrite lookup_insert_ne, lookup_delete_ne, lookup_insert_ne by done. done.
Qed.

Lemma finalize_without_audio_moves_video_witness :
  ∃ st' job',
    ffmpeg_export_finalize (Some "j1") Sample.encode_ok Sample.created
    = (r_finalize (len Sample.video_bytes) (output_path Sample.job), st')
    ∧ compose_jobs st' !! "j1" = Some job'
    ∧ status job' = st_done
    ∧ files st' !! output_path Sample.job = Some Sample.video_bytes
    ∧ files st' !! video_only_path Sample.job = None
    ∧ ∀ path, path ≠ output_path Sample.job → path ≠ video_only_path Sample.job →
              files st' !! path = files Sample.created !! path.
Proof.
  apply (finalize_without_audio_moves_video Sample.created "j1" Sample.job
           Sample.encode_ok Sample.encoder "" Sample.video_bytes).
  - discriminate.
  - reflexivity.
  - reflexivity.
  - reflexivity.
  - reflexivity.
  - reflexivity.
  - reflexivity.
  - vm_compute. discriminate.
Defined.

(** X7.  Finalize of a job with an audio artifact on disk, when the wait
    for the encoder returns (its output stream is at its end) with exit
    code 0, the encoder has left the video-only file and the mux process
    exits with 0: the answer is success with the size of what the mux
    process wrote at the output path, the job is [done], the video-only
    file is deleted, and the audio file is left on disk. *)
Theorem mux_success_keeps_mux_output (st : State) (jid : string)
    (job : ComposeExportJob) (env : FinalizeEnv) (p : Process) (tail a : string)
    (v m ab : bytes) :
  jid ≠ "" →
  compose_jobs st !! jid = Some job →
  status job = st_encoding →
  process job = Some p →
  fe_encoder_exit env = wait_exited 0 tail →
  fe_video_file env = Some v →
  audio_path job = Some a → a ≠ "" → files st !! a = Some ab →
  fe_mux_exit env = Some 0 →
  fe_mux_output env = Some m →
  video_only_path job ≠ output_path job →
  a ≠ video_only_path job → a ≠ output_path job →
  ∃ st' job',
    ffmpeg_export_finalize (Some jid) env st
    = (r_finalize (len m) (output_path job), st')
    ∧ compose_jobs st' !! jid = Some job'
    ∧ status job' = st_done
    ∧ files st' !! output_path job = Some m
    ∧ files st' !! video_only_path job = None
    ∧ files st' !! a = Some ab.
Proof.
  intros Hne Hjob Hst Hp Henc Hv Ha Hane Hab Hmux Hm Hpaths Hav Hao.
  enter_finalize Hne Hjob Hst Hp.
  rewrite Henc, Hv. cbn [negb Z.eqb file_left_by].
  set (job4 := set_process _ _).
  change (video_only_path (set_process (Some q) _)) with (video_only_path job).
  change (video_only_path job4) with (video_only_path job).
  change (output_path job4) with (output_path job).
  assert (E : has_audio job4 (<[video_only_path job := v]> (files st)) = true).
  { unfold has_audio. change (audio_path job4) with (audio_path job). rewrite Ha.
    destruct (String.eqb_spec a ""); [done |]. simpl.
    apply (exists_file_true _ _ ab). by rewrite lookup_insert_ne. }
  rewrite E, Hmux, Hm. cbn [negb Z.eqb file_written_by].
  rewrite (exists_file_true _ _ v)
    by (rewrite lookup_insert_ne by done; apply lookup_insert_eq).
  unfold report_done. change (output_path job4) with (output_path job).
  rewrite lookup_delete_ne, lookup_insert_eq by done.
  eexists _, _. split; [reflexivity |]. simpl. rewrite !lookup_insert_eq.
  split_and!; try done.
  - rewrite lookup_delete_ne by done. apply lookup_insert_eq.
  - apply lookup_delete_eq.
  - by rewrite lookup_delete_ne, !lookup_insert_ne by done.
Qed.

Lemma mux_success_keeps_mux_output_witness :
  ∃ st' job',
    ffmpeg_export_finalize (Some "j1") Finals.mux_ok Sample.with_audio
    = (r_finalize (len Finals.muxed) (output_path Sample.audio_job), st')
    ∧ compose_jobs st' !! "j1" = Some job'
    ∧ status job' = st_done
    ∧ files st' !! output_path Sample.audio_job = Some Finals.muxed
    ∧ files st' !! video_only_path Sample.audio_job = None
    ∧ files st' !! Sample.audio = Some [Byte.x52; Byte.x49].
Proof.
  apply (mux_success_keeps_mux_output Sample.with_audio "j1" Sample.audio_job
           Finals.mux_ok Sample.encoder "" Sample.audio Sample.video_bytes
           Finals.muxed [Byte.x52; Byte.x49]).
  - discriminate.
  - vm_compute. reflexivity.
  - vm_compute. reflexivity.
  - vm_compute. reflexivity.
  - reflexivity.
  - reflexivity.
  - vm_compute. reflexivity.
  - discriminate.
  - vm_compute. reflexivity.
  - reflexivity.
  - reflexivity.
  - vm_compute. discriminate.
  - vm_compute. discriminate.
  - vm_compute. discriminate.
Defined.

(** X8.  When the wait for the encoder returns (its output stream is at
    its end) and the exit code is other than 0, finalize answers 500 with
    "FFmpeg exited with code ...", the job is [error] with that message
    and the exit code recorded on its process handle; no mux is attempted
    and no file other than the encoder's own output changes. *)
Theorem encoder_failure_fails_the_job (st : State) (jid : string)
    (job : ComposeExportJob) (env : FinalizeEnv) (p : Process) (code : Z)
    (tail : string) :
  jid ≠ "" →
  compose_jobs st !! jid = Some job →
  status job = st_encoding →
  process job = Some p →
  fe_encoder_exit env = wait_exited code tail →
  code ≠ 0 →
  ∃ st' job',
    ffmpeg_export_finalize (Some jid) env st
    = (JSONResponse (e_job_error (err_ffmpeg_exit code tail)) 500, st')
    ∧ compose_jobs st' !! jid = Some job'
    ∧ status job' = st_error
    ∧ error job' = Some (err_ffmpeg_exit code tail)
    ∧ (process job' ≫= returncode) = Some code
    ∧ ∀ path, path ≠ video_only_path job → files st' !! path = files st !! path.
Proof.
  intros Hne Hjob Hst Hp Henc Hcode.
  enter_finalize Hne Hjob Hst Hp.
  rewrite Henc. destruct (Z.eqb_spec code 0); [done |]. cbn [negb].
  change (video_only_path (set_process (Some q) _)) with (video_only_path job).
  eexists _, _. split; [reflexivity |]. simpl. rewrite lookup_insert_eq.
  split_and!; try done.
  intros path Hpath. unfold file_left_by.
  destruct (fe_video_file env).
  - by rewrite lookup_insert_ne.
  - by rewrite lookup_delete_ne.
Qed.

Lemma encoder_failure_fails_the_job_witness :
  ∃ st' job',
    ffmpeg_export_finalize (Some "j1") Finals.encode_fails Sample.created
    = (JSONResponse (e_job_error (err_ffmpeg_exit 1 "Invalid data")) 500, st')
    ∧ compose_jobs st' !! "j1" = Some job'
    ∧ status job' = st_error
    ∧ error job' = Some (err_ffmpeg_exit 1 "Invalid data")
    ∧ (process job' ≫= returncode) = Some 1
    ∧ ∀ path, path ≠ video_only_path Sample.job →
              files st' !! path = files Sample.created !! path.
Proof.
  apply (encoder_failure_fails_the_job Sample.created "j1" Sample.job
           Finals.encode_fails Sample.encoder 1 "Invalid data").
  - discriminate.
  - reflexivity.
  - reflexivity.
  - reflexivity.
  - reflexivity.
  - lia.
Defined.

(** X9.  When the wait for the encoder ends in [asyncio.TimeoutError] (the
    encoder's output stream is at its end, but the process does not exit
    within the 120 s), finalize sends it a terminate signal, answers 500
    with "FFmpeg timeout (120s)" and leaves the job in [error] with that
    message. *)
Theorem encoder_timeout_terminates_and_fails (st : State) (jid : string)
    (job : ComposeExportJob) (env : FinalizeEnv) (p : Process) :
  jid ≠ "" →
  compose_jobs st !! jid = Some job →
  status job = st_encoding →
  process job = Some p →
  fe_encoder_exit env = wait_timeout →
  ∃ st' job' p',
    ffmpeg_export_finalize (Some jid) env st
    = (JSONResponse (e_job_error err_ffmpeg_timeout) 500, st')
    ∧ compose_jobs st' !! jid = Some job'
    ∧ status job' = st_error
    ∧ error job' = Some err_ffmpeg_timeout
    ∧ process job' = Some p'
    ∧ terminated p' = true.
Proof.
  intros Hne Hjob Hst Hp Henc.
  enter_finalize Hne Hjob Hst Hp.
  rewrite Henc.
  eexists _, _, _. split; [reflexivity |]. simpl. rewrite lookup_insert_eq.
  split_and!; done.
Qed.

Lemma encoder_timeout_terminates_and_fails_witness :
  ∃ st' job' p',
    ffmpeg_export_finalize (Some "j1") Finals.encode_hangs Sample.created
    = (JSONResponse (e_job_error err_ffmpeg_timeout) 500, st')
    ∧ compose_jobs st' !! "j1" = Some job'
    ∧ status job' = st_error
    ∧ error job' = Some err_ffmpeg_timeout
    ∧ process job' = Some p'
    ∧ terminated p' = true.
Proof.
  apply (encoder_timeout_terminates_and_fails Sample.created "j1" Sample.job
           Finals.encode_hangs Sample.encoder).
  - discriminate.
  - reflexivity.
  - reflexivity.
  - reflexivity.
  - reflexivity.
Defined.

(** Writes to the input pipe, the flush loop and the closing of the pipe
    leave the exit code and the terminate mark of the process handle as
    they are. *)
Lemma stdin_write_process (data : bytes) (j j2 : ComposeExportJob) (p : Process) :
  stdin_write data j = Some j2 →
  process j = Some p →
  ∃ p', process j2 = Some p'
        ∧ returncode p' = returncode p ∧ terminated p' = terminated p.
Proof.
  unfold stdin_write. intros H Hp. rewrite Hp in H. simpl in H.
  destruct (stdin p) as [w|]; simpl in H; [| discriminate].
  destruct (writer_write data w) as [w'|]; simpl in H; [| discriminate].
  injection H as <-. eexists. split; [reflexivity |]. done.
Qed.

Lemma flush_frames_process (fuel : nat) (job : ComposeExportJob) (p : Process) :
  process job = Some p →
  ∃ p', process (flush_frames fuel job) = Some p'
        ∧ returncode p' = returncode p ∧ terminated p' = terminated p.
Proof.
  revert job p. induction fuel as [|fuel IH]; intros job p Hp; simpl.
  { by exists p. }
  destruct (frame_buffer job !! next_frame_to_write job) as [data|]; [| by exists p].
  set (job1 := set_frame_buffer _ job).
  assert (∃ p2, process (if process_has_stdin job1
                         then match stdin_write data job1 with
                              | Some j => j
                              | None => job1
                              end
                         else job1) = Some p2
                ∧ returncode p2 = returncode p ∧ terminated p2 = terminated p)
    as (p2 & Hp2 & Hr & Ht).
  { destruct (process_has_stdin job1); [| by exists p].
    destruct (stdin_write data job1) as [j|] eqn:Hw; [| by exists p].
    by apply (stdin_write_process data job1 j p Hw). }
  match goal with |- context [flush_frames fuel ?j] =>
    destruct (IH j p2) as (p' & Hp' & Hr' & Ht'); [exact Hp2 |] end.
  exists p'. split; [exact Hp' |]. split; congruence.
Qed.

Lemma close_stdin_process (job : ComposeExportJob) (p : Process) :
  process job = Some p →
  ∃ p', process (close_stdin job) = Some p'
        ∧ returncode p' = returncode p ∧ terminated p' = terminated p
        ∧ (∀ w, stdin p = Some w → ∃ w', stdin p' = Some w' ∧ sw_closed w' = true).
Proof.
  intros Hp. unfold close_stdin. rewrite Hp.
  destruct (stdin p) as [w|] eqn:Hw.
  - eexists. split; [reflexivity |]. split_and!; try done.
    intros w0 _. eexists. by split.
  - exists p. by rewrite Hp.
Qed.

(** X26.  When the wait for the encoder raises (the progress reader that
    compose started is still waiting on the encoder's output stream, as it
    is while the encoder runs), no handler catches the exception: the
    answer is the framework's 500, no error is recorded on the job, the
    encoder is neither sent a terminate signal nor given an exit code, and
    no mux is run.  The job is left [finalizing]: from then on it takes no
    frame and no second finalize, and the sweep of old jobs never removes
    it, however old it gets. *)
Theorem raising_wait_strands_the_job (st : State) (jid : string)
    (job : ComposeExportJob) (env : FinalizeEnv) (p : Process) :
  jid ≠ "" →
  compose_jobs st !! jid = Some job →
  status job = st_encoding →
  process job = Some p →
  fe_encoder_exit env = wait_raised →
  ∃ st' job' p',
    ffmpeg_export_finalize (Some jid) env st = (r_unhandled, st')
    ∧ compose_jobs st' !! jid = Some job'
    ∧ status job' = st_finalizing
    ∧ error job' = error job
    ∧ process job' = Some p'
    ∧ returncode p' = returncode p
    ∧ terminated p' = terminated p
    ∧ (∀ path, path ≠ video_only_path job → files st' !! path = files st !! path)
    ∧ (∀ req, fr_jobId req = Some jid →
              ffmpeg_export_frame req st'
              = (JSONResponse (e_not_accepting_frames st_finalizing) 400, st'))
    ∧ (∀ env', ffmpeg_export_finalize (Some jid) env' st'
               = (JSONResponse (e_not_in_encoding_state st_finalizing) 400, st'))
    ∧ (∀ now, is_stale now job' = false).
Proof.
  intros Hne Hjob Hst Hp Henc.
  unfold ffmpeg_export_finalize at 1.
  rewrite (find_job_lookup _ _ _ Hne Hjob).
  rewrite bool_decide_eq_true_2 by exact Hst. cbn [negb].
  set (job1 := set_status st_finalizing job).
  destruct (flush_frames_process (size (frame_buffer job1)) job1 p Hp)
    as (p2 & Hp2 & Hr2 & Ht2).
  destruct (flush_frames_spec (size (frame_buffer job1)) job1) as (_ & _ & Hst2 & _).
  destruct (flush_frames_shape (size (frame_buffer job1)) job1)
    as (q2 & b2 & n2 & E2 & _).
  set (job2 := flush_frames _ job1) in *.
  destruct (close_stdin_process job2 p2 Hp2) as (p3 & Hp3 & Hr3 & Ht3 & _).
  destruct (close_stdin_shape job2) as (q3 & E3 & _).
  set (job3 := close_stdin job2) in *.
  assert (Hst3 : status job3 = st_finalizing).
  { rewrite E3. simpl. exact Hst2. }
  assert (He3 : error job3 = error job).
  { rewrite E3, E2. done. }
  assert (Hv3 : video_only_path job3 = video_only_path job).
  { rewrite E3, E2. done. }
  rewrite Hp3, Henc.
  exists (set_files
            (file_left_by (video_only_path job3) (fe_video_file env) (files st))
            (put_job jid job3 st)), job3, p3.
  split; [reflexivity |].
  assert (Hl : compose_jobs
                 (set_files
                    (file_left_by (video_only_path job3) (fe_video_file env) (files st))
                    (put_job jid job3 st)) !! jid = Some job3).
  { simpl. apply lookup_insert_eq. }
  split_and!; try done.
  - congruence.
  - congruence.
  - intros path Hpath. simpl. rewrite Hv3. unfold file_left_by.
    destruct (fe_video_file env).
    + by rewrite lookup_insert_ne.
    + by rewrite lookup_delete_ne.
  - intros req Hreq. unfold ffmpeg_export_frame. rewrite Hreq.
    rewrite (find_job_lookup _ _ _ Hne Hl).
    rewrite bool_decide_eq_false_2 by (rewrite Hst3; discriminate).
    cbn [negb]. by rewrite Hst3.
  - intros env'. unfold ffmpeg_export_finalize.
    rewrite (find_job_lookup _ _ _ Hne Hl).
    rewrite bool_decide_eq_false_2 by (rewrite Hst3; discriminate).
    cbn [negb]. by rewrite Hst3.
  - intros now. unfold is_stale. rewrite Hst3. simpl. apply andb_false_r.
Qed.

Lemma raising_wait_strands_the_job_witness :
  ∃ st' job' p',
    ffmpeg_export_finalize (Some "j1") Finals.encoder_running Sample.created
    = (r_unhandled, st')
    ∧ compose_jobs st' !! "j1" = Some job'
    ∧ status job' = st_finalizing
    ∧ error job' = error Sample.job
    ∧ process job' = Some p'
    ∧ returncode p' = returncode Sample.encoder
    ∧ terminated p' = terminated Sample.encoder
    ∧ (∀ path, path ≠ video_only_path Sample.job →
               files st' !! path = files Sample.created !! path)
    ∧ (∀ req, fr_jobId req = Some "j1" →
              ffmpeg_export_frame req st'
              = (JSONResponse (e_not_accepting_frames st_finalizing) 400, st'))
    ∧ (∀ env', ffmpeg_export_finalize (Some "j1") env' st'
               = (JSONResponse (e_not_in_encoding_state st_finalizing) 400, st'))
    ∧ (∀ now, is_stale now job' = false).
Proof.
  apply (raising_wait_strands_the_job Sample.created "j1" Sample.job
           Finals.encoder_running Sample.encoder).
  - discriminate.
  - reflexivity.
  - reflexivity.
  - reflexivity.
  - reflexivity.
Defined.

(** The encoder of the sample job is still running at finalize: the call
    answers 500, and the job answers "finalizing" to every later progress
    query. *)
Example finalize_with_running_encoder :
  let r_st := run [op_finalize (Some "j1") Finals.encoder_running; op_progress "j1"]
                  Sample.created in
  r_st.1 = [r_unhandled; r_progress st_finalizing (0 # 3) 0 3 0].
Proof. vm_compute. reflexivity. Qed.

Lemma flush_frames_drained (fuel : nat) (job : ComposeExportJob) :
  drained job → flush_frames fuel job = job.
Proof.
  intros Hdr. unfold drained in Hdr. destruct fuel; simpl; [done |]. by rewrite Hdr.
Qed.

Lemma close_stdin_frames (job : ComposeExportJob) :
  stdin_log (close_stdin job) = stdin_log job
  ∧ frame_buffer (close_stdin job) = frame_buffer job
  ∧ next_frame_to_write (close_stdin job) = next_frame_to_write job.
Proof.
  unfold close_stdin, stdin_log. destruct (process job) as [p|] eqn:Hp; [| by rewrite Hp].
  destruct (stdin p) eqn:Hw; simpl; [done |]. by rewrite Hp, Hw.
Qed.

Lemma stdin_log_same_pipe (job : ComposeExportJob) (p p' : Process) :
  process job = Some p → stdin p' = stdin p →
  stdin_log (set_process (Some p') job) = stdin_log job.
Proof. intros Hp Hs. unfold stdin_log. simpl. by rewrite Hp, Hs. Qed.

(** X10.  Finalize does not send buffered frames to the encoder when the
    job's next index is missing, which is the case for every job that is
    still encoding: the frames waiting behind the gap stay in the buffer,
    the counter does not move and the encoder's input is what it was,
    whichever way finalize ends. *)
Theorem finalize_sends_no_buffered_frame (st st' : State) (jid : string)
    (job : ComposeExportJob) (env : FinalizeEnv) (r : Response) :
  jid ≠ "" →
  compose_jobs st !! jid = Some job →
  status job = st_encoding →
  drained job →
  ffmpeg_export_finalize (Some jid) env st = (r, st') →
  ∃ job',
    compose_jobs st' !! jid = Some job'
    ∧ stdin_log job' = stdin_log job
    ∧ frame_buffer job' = frame_buffer job
    ∧ next_frame_to_write job' = next_frame_to_write job.
Proof.
  intros Hne Hjob Hst Hdr. unfold ffmpeg_export_finalize.
  rewrite (find_job_lookup _ _ _ Hne Hjob).
  rewrite bool_decide_eq_true_2 by exact Hst. cbn [negb].
  rewrite (flush_frames_drained _ (set_status st_finalizing job)) by exact Hdr.
  destruct (close_stdin_frames (set_status st_finalizing job)) as (Hlog & Hbuf & Hnext).
  set (job3 := close_stdin _) in *. clearbody job3.
  change (stdin_log (set_status st_finalizing job)) with (stdin_log job) in Hlog.
  simpl in Hbuf, Hnext.
  destruct (process job3) as [p|] eqn:Hp.
  2:{ intros [= <- <-]. exists job3. simpl. by rewrite lookup_insert_eq. }
  assert (Hany : ∀ p', stdin p' = stdin p →
            stdin_log (set_process (Some p') job3) = stdin_log job).
  { intros p' Hs. by rewrite (stdin_log_same_pipe job3 p p' Hp Hs). }
  destruct (fe_encoder_exit env) as [code tail| |].
  3:{ intros [= <- <-]. exists job3. simpl. by rewrite lookup_insert_eq. }
  2:{ intros [= <- <-]. eexists. simpl. rewrite lookup_insert_eq.
      split; [reflexivity |]. split_and!; try done. by apply (Hany (terminate p)). }
  destruct (negb (code =? 0)).
  { intros [= <- <-]. eexists. simpl. rewrite lookup_insert_eq.
    split; [reflexivity |]. split_and!; try done.
    by apply (Hany (set_returncode (Some code) p)). }
  assert (Hdone : ∀ f, report_done jid
            (set_process (Some (set_returncode (Some code) p)) job3) f st = (r, st') →
            ∃ job', compose_jobs st' !! jid = Some job'
                    ∧ stdin_log job' = stdin_log job
                    ∧ frame_buffer job' = frame_buffer job
                    ∧ next_frame_to_write job' = next_frame_to_write job).
  { intros f. unfold report_done. intros [= <- <-]. eexists. simpl.
    rewrite lookup_insert_eq. split; [reflexivity |]. split_and!; try done.
    by apply (Hany (set_returncode (Some code) p)). }
  destruct (has_audio _ _).
  - destruct (fe_mux_exit env) as [mux_code|].
    + destruct (negb (mux_code =? 0)); apply Hdone.
    + intros [= <- <-]. eexists. simpl. rewrite lookup_insert_eq.
      split; [reflexivity |]. split_and!; try done.
      by apply (Hany (set_returncode (Some code) p)).
  - apply Hdone.
Qed.

Lemma finalize_sends_no_buffered_frame_witness :
  compose_jobs Finals.gapped !! "j1" = Some Finals.gapped_job
  ∧ frame_buffer Finals.gapped_job !! 2 = Some Sample.f2
  ∧ ∃ job',
      compose_jobs (ffmpeg_export_finalize (Some "j1") Sample.encode_ok Finals.gapped).2
        !! "j1" = Some job'
      ∧ stdin_log job' = stdin_log Finals.gapped_job
      ∧ frame_buffer job' = frame_buffer Finals.gapped_job
      ∧ next_frame_to_write job' = next_frame_to_write Finals.gapped_job.
Proof.
  split; [vm_compute; reflexivity |]. split; [vm_compute; reflexivity |].
  apply (finalize_sends_no_buffered_frame Finals.gapped
           (ffmpeg_export_finalize (Some "j1") Sample.encode_ok Finals.gapped).2
           "j1" Finals.gapped_job Sample.encode_ok
           (ffmpeg_export_finalize (Some "j1") Sample.encode_ok Finals.gapped).1).
  - discriminate.
  - vm_compute. reflexivity.
  - vm_compute. reflexivity.
  - vm_compute. reflexivity.
  - apply surjective_pairing.
Defined.

(** ** Download and audio *)

(** X11.  Download never changes the server state, and it serves a file
    only for a job that is [done] and whose output artifact exists: then
    the file served is the job's output path, under the name
    [export.<container>].  Every other answer is an error with code 404 or
    400. *)
Theorem download_serves_only_finished_output (jid : string) (st st' : State)
    (r : Response) :
  ffmpeg_export_download jid st = (r, st') →
  st' = st
  ∧ match r with
    | r_download path media_type filename =>
        ∃ job, compose_jobs st !! jid = Some job
               ∧ status job = st_done
               ∧ path = output_path job
               ∧ is_Some (files st !! path)
               ∧ filename = ("export." ++ container job)%string
    | JSONResponse _ code => code = 404 ∨ code = 400
    | _ => False
    end.
Proof.
  unfold ffmpeg_export_download. intros H.
  destruct (compose_jobs st !! jid) as [job|] eqn:Hjob.
  2:{ injection H as <- <-. split; [done | by left]. }
  destruct (decide (status job = st_done)) as [Hst|Hst].
  2:{ rewrite bool_decide_eq_false_2 in H by done. injection H as <- <-.
      split; [done | by right]. }
  rewrite bool_decide_eq_true_2 in H by done. cbn [negb] in H.
  unfold exists_file in H.
  destruct (decide (is_Some (files st !! output_path job))) as [Hex|Hex].
  - rewrite bool_decide_eq_true_2 in H by done. injection H as <- <-.
    split; [done |]. by exists job.
  - rewrite bool_decide_eq_false_2 in H by done. injection H as <- <-.
    split; [done | by left].
Qed.

Lemma download_serves_only_finished_output_witness :
  (ffmpeg_export_download "j1" Sample.finished).2 = Sample.finished
  ∧ ∃ job, compose_jobs Sample.finished !! "j1" = Some job
           ∧ status job = st_done
           ∧ Sample.out = output_path job
           ∧ is_Some (files Sample.finished !! Sample.out)
           ∧ "export.mp4" = ("export." ++ container job)%string.
Proof.
  apply (download_serves_only_finished_output "j1" Sample.finished
           (ffmpeg_export_download "j1" Sample.finished).2
           (r_download Sample.out "video/mp4" "export.mp4")).
  vm_compute. reflexivity.
Defined.

(** X12.  An audio track is accepted for an existing job whatever its
    status, and a second submission replaces the first: both are written
    to the same file, [audio_<jobId>.wav] next to the output, which then
    holds the second payload; the job's status is not changed. *)
Theorem audio_resubmission_replaces (st : State) (jid : string)
    (job : ComposeExportJob) (d1 d2 : bytes) :
  jid ≠ "" →
  compose_jobs st !! jid = Some job →
  let path := posixpath.join (posixpath.dirname (output_path job))
                             ("audio_" ++ jid ++ ".wav")%string in
  let st1 := (ffmpeg_export_audio (Some jid) d1 st).2 in
  ∃ st2 job2,
    ffmpeg_export_audio (Some jid) d2 st1 = (r_audio (len d2), st2)
    ∧ compose_jobs st2 !! jid = Some job2
    ∧ audio_path job2 = Some path
    ∧ files st2 !! path = Some d2
    ∧ status job2 = status job.
Proof.
  intros Hne Hjob path st1.
  assert (Hst1 : st1 = put_job jid (set_audio_path (Some path) job)
                         (set_files (<[path := d1]> (files st)) st)).
  { subst st1. unfold ffmpeg_export_audio.
    by rewrite (find_job_lookup _ _ _ Hne Hjob). }
  rewrite Hst1. unfold ffmpeg_export_audio.
  rewrite (find_job_lookup _ jid (set_audio_path (Some path) job) Hne)
    by (simpl; apply lookup_insert_eq).
  eexists _, _. split; [reflexivity |]. simpl.
  rewrite !lookup_insert_eq. done.
Qed.

Lemma audio_resubmission_replaces_witness :
  ∃ st2 job2,
    ffmpeg_export_audio (Some "j1") [Byte.x02]
      (ffmpeg_export_audio (Some "j1") [Byte.x01] Sample.finished).2
    = (r_audio (len [Byte.x02]), st2)
    ∧ compose_jobs st2 !! "j1" = Some job2
    ∧ audio_path job2 = Some Sample.audio
    ∧ files st2 !! Sample.audio = Some [Byte.x02]
    ∧ status job2 = status Sample.done_job.
Proof.
  apply (audio_resubmission_replaces Sample.finished "j1" Sample.done_job
           [Byte.x01] [Byte.x02]).
  - discriminate.
  - vm_compute. reflexivity.
Defined.

(** ** The reaper *)

Lemma reap_jobs (st : State) (jid : string) :
  compose_jobs (reap st jid) = delete jid (compose_jobs st).
Proof.
  unfold reap. destruct (compose_jobs st !! jid) eqn:E; simpl; [done |].
  symmetry. by apply delete_id.
Qed.

Lemma foldl_reap_lookup (jids : list string) (st : State) (k : string) :
  compose_jobs (foldl reap st jids) !! k
  = if decide (k ∈ jids) then None else compose_jobs st !! k.
Proof.
  revert st. induction jids as [|jid jids IH]; intros st; cbn [foldl].
  { destruct (decide (k ∈ [])) as [Hin|Hin]; [by apply elem_of_nil in Hin | done]. }
  rewrite IH, reap_jobs.
  destruct (decide (k ∈ jids)) as [Hin|Hin];
    destruct (decide (k ∈ jid :: jids)) as [Hin'|Hin']; try done.
  - destruct Hin'. apply elem_of_cons. by right.
  - apply elem_of_cons in Hin' as [->|?]; [apply lookup_delete_eq | done].
  - apply lookup_delete_ne. intros ->. apply Hin', elem_of_cons. by left.
Qed.

Lemma stale_ids (now : Z) (m : gmap string ComposeExportJob) (k : string) :
  k ∈ List.map fst
        (List.filter (fun e : string * ComposeExportJob => is_stale now (snd e))
                     (map_to_list m))
  ↔ ∃ job, m !! k = Some job ∧ is_stale now job = true.
Proof.
  rewrite list_elem_of_In, in_map_iff. split.
  - intros ([k' job] & <- & Hin). apply filter_In in Hin as [Hin Hs].
    apply list_elem_of_In, elem_of_map_to_list in Hin. by exists job.
  - intros (job & Hk & Hs). exists (k, job). split; [done |].
    apply filter_In. split; [| done].
    by apply list_elem_of_In, elem_of_map_to_list.
Qed.

Lemma unlink_if_exists_subseteq (path : option string) (f : gmap string bytes) :
  unlink_if_exists path f ⊆ f.
Proof.
  unfold unlink_if_exists. destruct path as [p|]; [| done].
  destruct (String.eqb p ""); [done |].
  destruct (exists_file p f); [apply delete_subseteq | done].
Qed.

Lemma foldl_reap_files (jids : list string) (st : State) :
  files (foldl reap st jids) ⊆ files st.
Proof.
  revert st. induction jids as [|jid jids IH]; intros st; simpl; [done |].
  etrans; [apply IH |]. unfold reap.
  destruct (compose_jobs st !! jid) as [job|]; simpl; [| done].
  unfold _cleanup_job_files.
  etrans; apply unlink_if_exists_subseteq.
Qed.

(** X13.  The sweep that runs before a job is created removes exactly the
    jobs that are terminal ([done], [error] or [cancelled]) and were
    created more than 3600 seconds ago; every other job, whatever its age
    if it is not terminal, stays in the table unchanged.  The sweep
    creates or changes no file: it only deletes. *)
Theorem reaper_removes_exactly_stale_jobs (now : Z) (st : State) (k : string) :
  compose_jobs (_cleanup_old_jobs now st) !! k
  = match compose_jobs st !! k with
    | Some job =>
        if (3600 <? now - created_at job) && is_terminal (status job)
        then None else Some job
    | None => None
    end
  ∧ files (_cleanup_old_jobs now st) ⊆ files st.
Proof.
  split; [| apply foldl_reap_files].
  unfold _cleanup_old_jobs. rewrite foldl_reap_lookup.
  destruct (decide (k ∈ _)) as [Hin|Hin].
  - apply stale_ids in Hin as (job & -> & Hs). unfold is_stale in Hs.
    unfold COMPOSE_JOB_MAX_AGE in Hs. by rewrite Hs.
  - destruct (compose_jobs st !! k) as [job|] eqn:Hk; [| done].
    destruct ((3600 <? now - created_at job) && is_terminal (status job)) eqn:Hs; [| done].
    destruct Hin. apply stale_ids. by exists job.
Qed.

Example reaper_keeps_old_encoding_job :
  compose_jobs (_cleanup_old_jobs 1000000 Sample.created) !! "j1" = Some Sample.job
  ∧ compose_jobs (_cleanup_old_jobs 1000000 Sample.finished) !! "j1" = None
  ∧ compose_jobs (_cleanup_old_jobs 4600 Sample.finished) !! "j1"
    = Some Sample.done_job.
Proof. vm_compute. done. Qed.

(** ** What no operation changes *)

Lemma same_settings_refl (j : ComposeExportJob) : same_settings j j.
Proof. unfold same_settings. done. Qed.

Lemma same_settings_trans (j1 j2 j3 : ComposeExportJob) :
  same_settings j1 j2 → same_settings j2 j3 → same_settings j1 j3.
Proof. unfold same_settings. intros H1 H2. destruct_and!. split_and!; congruence. Qed.

Lemma write_sequential_frames_settings (fuel : nat) (job j' : ComposeExportJob) (b : bool) :
  write_sequential_frames fuel job = (j', b) → same_settings job j'.
Proof.
  revert job. induction fuel as [|fuel IH]; intros job Hrun; simpl in Hrun.
  { injection Hrun as <- _. apply same_settings_refl. }
  destruct (frame_buffer job !! next_frame_to_write job) as [data|].
  2:{ injection Hrun as <- _. apply same_settings_refl. }
  destruct (stdin_write data _) as [job2|] eqn:Hw.
  - apply stdin_write_Some in Hw as (p & -> & _). apply IH in Hrun.
    eapply same_settings_trans; [| exact Hrun]. by unfold same_settings.
  - injection Hrun as <- _. by unfold same_settings.
Qed.

Lemma finalize_settings (jobId : option string) (env : FinalizeEnv) (st st' : State)
    (r : Response) (k : string) (job : ComposeExportJob) :
  ffmpeg_export_finalize jobId env st = (r, st') →
  compose_jobs st !! k = Some job →
  ∃ job', compose_jobs st' !! k = Some job' ∧ same_settings job job'.
Proof.
  unfold ffmpeg_export_finalize. intros H Hk.
  destruct (find_job jobId st) as [[jid j]|] eqn:Hfind.
  2:{ injection H as <- <-. exists job. split; [done | apply same_settings_refl]. }
  apply find_job_Some in Hfind as (_ & _ & Hj).
  destruct (negb _).
  { injection H as <- <-. exists job. split; [done | apply same_settings_refl]. }
  destruct (flush_frames_shape (size (frame_buffer (set_status st_finalizing j)))
              (set_status st_finalizing j)) as (p2 & b2 & n2 & E2 & _).
  rewrite E2 in H. clear E2.
  match type of H with context [close_stdin ?j3] =>
    destruct (close_stdin_shape j3) as (p3 & E3 & _); rewrite E3 in H; clear E3 end.
  cbn [process set_process] in H.
  assert (Hput : ∀ j' f, same_settings j j' →
            ∃ job', compose_jobs (set_files f (put_job jid j' st)) !! k = Some job'
                    ∧ same_settings job job').
  { intros j' f Hs. simpl. destruct (decide (jid = k)) as [->|Hne].
    - rewrite lookup_insert_eq. exists j'. split; [done | congruence].
    - rewrite lookup_insert_ne by done. exists job. split; [done | apply same_settings_refl]. }
  destruct p3 as [p|].
  2:{ injection H as <- <-. by apply (Hput _ (files st)). }
  destruct (fe_encoder_exit env) as [code tail| |].
  3:{ injection H as <- <-. by apply Hput. }
  2:{ injection H as <- <-. by apply Hput. }
  destruct (negb (code =? 0)).
  { injection H as <- <-. by apply Hput. }
  unfold report_done in H.
  destruct (has_audio _ _).
  - destruct (fe_mux_exit env) as [mux_code|].
    + destruct (negb (mux_code =? 0)); injection H as <- <-; by apply Hput.
    + injection H as <- <-. by apply Hput.
  - injection H as <- <-. by apply Hput.
Qed.

Lemma step_settings (o : Op) (st st' : State) (r : Response) (k : string)
    (job : ComposeExportJob) :
  step o st = (r, st') →
  compose_jobs st !! k = Some job →
  ∃ job', compose_jobs st' !! k = Some job' ∧ same_settings job job'.
Proof.
  intros Hstep Hjob.
  assert (Hsame : ∃ job', compose_jobs st !! k = Some job' ∧ same_settings job job').
  { exists job. split; [done | apply same_settings_refl]. }
  assert (Hput : ∀ jid j j' f, compose_jobs st !! jid = Some j → same_settings j j' →
            ∃ job', compose_jobs (set_files f (put_job jid j' st)) !! k = Some job'
                    ∧ same_settings job job').
  { intros jid j j' f Hj Hs. simpl. destruct (decide (jid = k)) as [->|Hne].
    - rewrite lookup_insert_eq. exists j'. split; [done | congruence].
    - rewrite lookup_insert_ne by done. exact Hsame. }
  destruct o as [req|jobId data|jobId env|jid|jid|jid]; simpl in Hstep.
  - apply frame_cases in Hstep
      as [[-> _]|(jid & j & j' & d & b & Hfind & _ & _ & _ & _ & Hbw & -> & _)];
      [exact Hsame |].
    apply find_job_Some in Hfind as (_ & _ & Hj).
    unfold buffer_and_write in Hbw. apply write_sequential_frames_settings in Hbw.
    apply (Hput jid j j' (files st) Hj).
    eapply same_settings_trans; [| exact Hbw]. by unfold same_settings.
  - unfold ffmpeg_export_audio in Hstep.
    destruct (find_job jobId st) as [[jid j]|] eqn:Hfind; injection Hstep as <- <-;
      [| exact Hsame].
    apply find_job_Some in Hfind as (_ & _ & Hj).
    simpl. destruct (decide (jid = k)) as [->|Hne].
    + rewrite lookup_insert_eq. eexists. split; [done |].
      assert (j = job) as -> by congruence. by unfold same_settings.
    + rewrite lookup_insert_ne by done. exact Hsame.
  - by eapply finalize_settings.
  - unfold ffmpeg_export_cancel in Hstep.
    destruct (compose_jobs st !! jid) as [j|] eqn:Hj; injection Hstep as <- <-;
      [| exact Hsame].
    apply (Hput jid j _ _ Hj).
    destruct (process j) as [p|]; [| by unfold same_settings].
    destruct (returncode p); by unfold same_settings.
  - unfold ffmpeg_export_progress in Hstep.
    destruct (compose_jobs st !! jid); injection Hstep as <- <-; exact Hsame.
  - unfold ffmpeg_export_download in Hstep.
    destruct (compose_jobs st !! jid) as [j|]; [| injection Hstep as <- <-; exact Hsame].
    destruct (negb _); [injection Hstep as <- <-; exact Hsame |].
    destruct (negb _); injection Hstep as <- <-; exact Hsame.
Qed.

(** X14.  No frame, audio, finalize, cancel, progress or download operation
    ever changes a job's identifier, geometry, frame rate, total frame
    count, codec, quality, container, bitrates, output path or creation
    time: along any sequence of operations the job stays in the table with
    these fields as they were at the start. *)
Theorem settings_never_change (ops : list Op) (st st' : State) (rs : list Response)
    (k : string) (job : ComposeExportJob) :
  run ops st = (rs, st') →
  compose_jobs st !! k = Some job →
  ∃ job', compose_jobs st' !! k = Some job' ∧ same_settings job job'.
Proof.
  revert st rs job. induction ops as [|o ops IH]; intros st rs job Hrun Hjob; simpl in Hrun.
  { injection Hrun as <- <-. exists job. split; [done | apply same_settings_refl]. }
  destruct (step o st) as [r st1] eqn:Hstep.
  destruct (run ops st1) as [rs' st2] eqn:Hrest. injection Hrun as <- <-.
  destruct (step_settings _ _ _ _ _ _ Hstep Hjob) as (job1 & Hjob1 & Hs1).
  destruct (IH _ _ _ Hrest Hjob1) as (job' & Hjob' & Hs').
  exists job'. split; [done |]. by eapply same_settings_trans.
Qed.

Lemma settings_never_change_witness :
  ∃ job', compose_jobs (run Sample.session Sample.created).2 !! "j1" = Some job'
          ∧ same_settings Sample.job job'.
Proof.
  apply (settings_never_change Sample.session Sample.created
           (run Sample.session Sample.created).2
           (run Sample.session Sample.created).1 "j1" Sample.job).
  - apply surjective_pairing.
  - reflexivity.
Defined.

(** ** Progress over time *)

Lemma progress_of_mono (j j' : ComposeExportJob) :
  total_frames j' = total_frames j →
  frames_received j ≤ frames_received j' →
  (progress_of j <= progress_of j')%Q.
Proof.
  intros Ht Hf. unfold progress_of. rewrite Ht.
  destruct (0 <? total_frames j); [| apply Qle_refl].
  apply Q.min_le_compat_r. unfold Qle. simpl. nia.
Qed.

Lemma step_progress (o : Op) (st st' : State) (r : Response) (k : string)
    (job : ComposeExportJob) :
  step o st = (r, st') →
  compose_jobs st !! k = Some job →
  ∃ job', compose_jobs st' !! k = Some job'
          ∧ (progress_of job <= progress_of job')%Q.
Proof.
  intros Hstep Hjob.
  destruct (step_lookup _ _ _ _ _ _ Hstep Hjob) as (job1 & Hjob1 & Htrans).
  destruct (step_settings _ _ _ _ _ _ Hstep Hjob) as (job2 & Hjob2 & Hs).
  assert (job2 = job1) as -> by congruence.
  apply job_trans_counters in Htrans as [_ Hfr].
  exists job1. split; [done |].
  apply progress_of_mono; [| done]. unfold same_settings in Hs. by destruct_and!.
Qed.

(** X15.  The progress reported for a job never goes down: along any
    sequence of frame, audio, finalize, cancel, progress and download
    operations, the value a progress query would report afterwards is at
    least the value it would have reported before. *)
Theorem progress_never_decreases (ops : list Op) (st st' : State) (rs : list Response)
    (k : string) (job : ComposeExportJob) :
  run ops st = (rs, st') →
  compose_jobs st !! k = Some job →
  ∃ job', compose_jobs st' !! k = Some job'
          ∧ (progress_of job <= progress_of job')%Q.
Proof.
  revert st rs job. induction ops as [|o ops IH]; intros st rs job Hrun Hjob; simpl in Hrun.
  { injection Hrun as <- <-. exists job. split; [done | apply Qle_refl]. }
  destruct (step o st) as [r st1] eqn:Hstep.
  destruct (run ops st1) as [rs' st2] eqn:Hrest. injection Hrun as <- <-.
  destruct (step_progress _ _ _ _ _ _ Hstep Hjob) as (job1 & Hjob1 & Hp1).
  destruct (IH _ _ _ Hrest Hjob1) as (job' & Hjob' & Hp').
  exists job'. split; [done |]. by eapply Qle_trans.
Qed.

Lemma progress_never_decreases_witness :
  ∃ job', compose_jobs (run Sample.session Sample.created).2 !! "j1" = Some job'
          ∧ (progress_of Sample.job <= progress_of job')%Q.
Proof.
  apply (progress_never_decreases Sample.session Sample.created
           (run Sample.session Sample.created).2
           (run Sample.session Sample.created).1 "j1" Sample.job).
  - apply surjective_pairing.
  - reflexivity.
Defined.

(** ** Job creation *)

(** X16.  Whenever job creation answers with a job identifier, the job
    registered under it is [encoding], has received and written no frame
    (both counters 0, empty buffer), has no audio and no error, carries the
    geometry of the request and a total frame count above 0, and its output
    path is the one in the answer; every other job of the swept table is
    untouched.  Whenever creation answers with an error, the table is the
    swept table: no job is added. *)
Theorem compose_registers_fresh_job (req : ComposeRequest) (env : ComposeEnv)
    (st st' : State) (r : Response) :
  ffmpeg_export_compose req env st = (r, st') →
  match r with
  | r_compose jid s out =>
      ∃ job,
        compose_jobs st' = <[jid := job]> (compose_jobs (_cleanup_old_jobs (ce_now env) st))
        ∧ jid = ce_uuid env ∧ s = st_encoding
        ∧ status job = st_encoding
        ∧ frames_received job = 0
        ∧ next_frame_to_write job = 0
        ∧ frame_buffer job = ∅
        ∧ audio_path job = None ∧ error job = None
        ∧ is_Some (process job)
        ∧ width job = cr_width req ∧ height job = cr_height req
        ∧ total_frames job = cr_totalFrames req ∧ 0 < total_frames job
        ∧ output_path job = out
  | JSONResponse _ _ => st' = _cleanup_old_jobs (ce_now env) st
  | _ => False
  end.
Proof.
  unfold ffmpeg_export_compose. intros H.
  destruct (Z.leb_spec (cr_totalFrames req) 0) as [Hle|Hpos].
  { by injection H as <- <-. }
  destruct (negb (ce_ffmpeg_available env)); [by injection H as <- <- |].
  destruct (ce_process env) as [p|]; [| by injection H as <- <-].
  injection H as <- <-. eexists. split; [reflexivity |]. simpl.
  split_and!; try done.
Qed.

Lemma compose_registers_fresh_job_witness :
  ∃ job,
    compose_jobs (ffmpeg_export_compose Sample.request Sample.env Sample.empty).2
    = <["j1" := job]>
        (compose_jobs (_cleanup_old_jobs (ce_now Sample.env) Sample.empty))
    ∧ "j1" = ce_uuid Sample.env ∧ st_encoding = st_encoding
    ∧ status job = st_encoding
    ∧ frames_received job = 0
    ∧ next_frame_to_write job = 0
    ∧ frame_buffer job = ∅
    ∧ audio_path job = None ∧ error job = None
    ∧ is_Some (process job)
    ∧ width job = cr_width Sample.request ∧ height job = cr_height Sample.request
    ∧ total_frames job = cr_totalFrames Sample.request ∧ 0 < total_frames job
    ∧ output_path job = Sample.out.
Proof.
  apply (compose_registers_fresh_job Sample.request Sample.env Sample.empty
           (ffmpeg_export_compose Sample.request Sample.env Sample.empty).2
           (r_compose "j1" st_encoding Sample.out)).
  vm_compute. reflexivity.
Defined.

(** * Encoder selection and encoder arguments *)

Example contains_examples :
  Encoding.contains "nvenc" "h264_nvenc" = true
  ∧ Encoding.contains "libvpx" "libvpx-vp9" = true
  ∧ Encoding.contains "amf" "h264_vaapi" = false
  ∧ Encoding.contains "" "" = true.
Proof. vm_compute. done. Qed.

Example encoder_args_examples :
  Encoding._get_encoder_args "avc" "high" "mp4" None Encoding.no_hw
  = ["-c:v"; "libx264"; "-crf"; "18"; "-preset"; "fast"; "-pix_fmt"; "yuv420p";
     "-movflags"; "+faststart"]
  ∧ Encoding._get_encoder_args "vp9" "low" "webm" (Some 4000000) Encoding.no_hw
    = ["-c:v"; "libvpx-vp9"; "-b:v"; "4000000"; "-crf"; "35"; "-b:v"; "0";
       "-pix_fmt"; "yuv420p"]
  ∧ Encoding._get_encoder_args "avc" "high" "mov" (Some 0) Encoding.nvenc
    = ["-c:v"; "h264_nvenc"; "-cq"; "20"; "-preset"; "p4"; "-tune"; "hq";
       "-pix_fmt"; "yuv420p"].
Proof. vm_compute. done. Qed.

Example detect_examples :
  Encoding.detect_hardware_acceleration "Windows" (λ _, Some Encoding.sample_probe)
  = Encoding.nvenc
  ∧ Encoding.detect_hardware_acceleration "Darwin" (λ _, Some Encoding.sample_probe)
    = Encoding.no_hw
  ∧ Encoding.detect_hardware_acceleration "Linux" (λ _, None) = Encoding.no_hw.
Proof. vm_compute. done. Qed.

Lemma first_available_spec (cands : list (string * string))
    (probes : nat → option string) (i : nat) :
  let r := Encoding.first_available cands probes i in
  (Encoding.available r = true →
     ∃ n, cands !! n = Some (Encoding.encoder r, Encoding.hwaccel r)
          ∧ Encoding.test_encoder (probes (i + n)%nat) (Encoding.encoder r) = true
          ∧ ∀ m e h, (m < n)%nat → cands !! m = Some (e, h) →
                     Encoding.test_encoder (probes (i + m)%nat) e = false)
  ∧ (Encoding.available r = false →
       r = Encoding.no_hw
       ∧ ∀ m e h, cands !! m = Some (e, h) →
                  Encoding.test_encoder (probes (i + m)%nat) e = false).
Proof.
  revert i. induction cands as [|[enc accel] rest IH]; intros i; simpl.
  { split; [done |]. intros _. split; [done |]. intros m e h Hm. done. }
  destruct (Encoding.test_encoder (probes i) enc) eqn:Ht; simpl.
  - split; [| done]. intros _. exists 0%nat. rewrite Nat.add_0_r.
    split_and!; [done | done |]. intros m e h Hm. lia.
  - destruct (IH (S i)) as [IHa IHn]. split.
    + intros Ha. destruct (IHa Ha) as (n & Hn & Htest & Hearlier).
      exists (S n). split_and!.
      * done.
      * by replace (i + S n)%nat with (S i + n)%nat by lia.
      * intros m e h Hm Hc. destruct m as [|m].
        -- injection Hc as <- <-. by rewrite Nat.add_0_r.
        -- replace (i + S m)%nat with (S i + m)%nat by lia.
           apply (Hearlier m e h); [lia | done].
    + intros Ha. destruct (IHn Ha) as [Hr Hall]. split; [done |].
      intros m e h Hc. destruct m as [|m].
      * injection Hc as <- <-. by rewrite Nat.add_0_r.
      * replace (i + S m)%nat with (S i + m)%nat by lia. by apply (Hall m e h).
Qed.

(** X17.  Hardware detection picks the first candidate of the platform, in
    the listed order, whose name occurs in the output of its probe run:
    when the result says available, its encoder and hwaccel are that
    candidate's and every earlier candidate's probe failed; when it says
    not available, every candidate's probe failed and the result is the
    software default [libx264] with no hwaccel. *)
Theorem detection_picks_first_working_candidate (system : string)
    (probes : nat → option string) :
  let r := Encoding.detect_hardware_acceleration system probes in
  (Encoding.available r = true →
     ∃ n, Encoding.candidates system !! n = Some (Encoding.encoder r, Encoding.hwaccel r)
          ∧ Encoding.test_encoder (probes n) (Encoding.encoder r) = true
          ∧ ∀ m e h, (m < n)%nat → Encoding.candidates system !! m = Some (e, h) →
                     Encoding.test_encoder (probes m) e = false)
  ∧ (Encoding.available r = false →
       r = Encoding.no_hw
       ∧ ∀ m e h, Encoding.candidates system !! m = Some (e, h) →
                  Encoding.test_encoder (probes m) e = false).
Proof.
  exact (first_available_spec (Encoding.candidates system) probes 0).
Qed.

Lemma detection_picks_first_working_candidate_witness :
  let r := Encoding.detect_hardware_acceleration "Windows"
             (λ _, Some Encoding.sample_probe) in
  ∃ n, Encoding.candidates "Windows" !! n = Some (Encoding.encoder r, Encoding.hwaccel r)
       ∧ Encoding.test_encoder (Some Encoding.sample_probe) (Encoding.encoder r) = true
       ∧ ∀ m e h, (m < n)%nat → Encoding.candidates "Windows" !! m = Some (e, h) →
                  Encoding.test_encoder (Some Encoding.sample_probe) e = false.
Proof.
  apply (proj1 (detection_picks_first_working_candidate "Windows"
                  (λ _, Some Encoding.sample_probe))).
  vm_compute. reflexivity.
Defined.

(** X18.  The encoder arguments always start with [-c:v] and the chosen
    encoder, and always end with [-pix_fmt yuv420p], followed by
    [-movflags +faststart] exactly when the container is mp4.  So the
    encoder name the handlers report, the second argument, is the chosen
    encoder and never the fallback text "unknown". *)
Theorem encoder_args_frame (codec quality container : string)
    (video_bitrate : option Z) (hw_info : Encoding.HWAccelInfo) :
  let args := Encoding._get_encoder_args codec quality container video_bitrate hw_info in
  take 2 args = ["-c:v"; chosen_encoder codec hw_info]
  ∧ Encoding.reported_encoder args = chosen_encoder codec hw_info
  ∧ (container = "mp4" →
     drop (length args - 4) args = ["-pix_fmt"; "yuv420p"; "-movflags"; "+faststart"])
  ∧ (container ≠ "mp4" → drop (length args - 2) args = ["-pix_fmt"; "yuv420p"]).
Proof.
  unfold Encoding._get_encoder_args, chosen_encoder.
  set (enc := if negb _ then _ else _).
  assert (Henc : enc = if Encoding.available hw_info then Encoding.encoder hw_info
                       else default "libx264" (Encoding.codec_map !! codec)).
  { subst enc. by destruct (Encoding.available hw_info). }
  rewrite <- Henc. clearbody enc. clear Henc.
  destruct (String.eqb_spec container "mp4") as [->|Hc];
    destruct (Encoding.bitrate_given video_bitrate);
    destruct (String.eqb enc "libx264"); try (split_and!; done);
    destruct (String.eqb enc "libx265"); try (split_and!; done);
    destruct (Encoding.contains "nvenc" enc); try (split_and!; done);
    destruct (Encoding.contains "videotoolbox" enc); try (split_and!; done);
    destruct (Encoding.contains "amf" enc); try (split_and!; done);
    destruct (Encoding.contains "qsv" enc); try (split_and!; done);
    destruct (Encoding.contains "libvpx" enc); split_and!; done.
Qed.

(** X19.  Exactly one of the requested codec and the detected encoder
    decides the encoder arguments: with hardware acceleration available
    the requested codec is ignored, and without it the detected encoder
    is. *)
Theorem codec_or_hardware_decides (quality container : string)
    (video_bitrate : option Z) (hw_info : Encoding.HWAccelInfo) :
  (Encoding.available hw_info = true →
     ∀ codec codec',
       Encoding._get_encoder_args codec quality container video_bitrate hw_info
       = Encoding._get_encoder_args codec' quality container video_bitrate hw_info)
  ∧ (Encoding.available hw_info = false →
       ∀ codec,
         Encoding._get_encoder_args codec quality container video_bitrate hw_info
         = Encoding._get_encoder_args codec quality container video_bitrate Encoding.no_hw).
Proof.
  split; intros Ha; intros; unfold Encoding._get_encoder_args; by rewrite Ha.
Qed.

Lemma codec_or_hardware_decides_witness :
  Encoding._get_encoder_args "hevc" "high" "mp4" None Encoding.nvenc
  = Encoding._get_encoder_args "avc" "high" "mp4" None Encoding.nvenc.
Proof.
  apply (proj1 (codec_or_hardware_decides "high" "mp4" None Encoding.nvenc)).
  reflexivity.
Defined.

(** X20.  A quality name that [CRF_MAP] does not list gives the arguments
    of "medium"; and when the chosen encoder is [h264_amf], [h264_vaapi]
    or [libaom-av1], the quality has no effect on the arguments at all. *)
Theorem quality_fallback_and_blind_spots (codec quality quality' container : string)
    (video_bitrate : option Z) (hw_info : Encoding.HWAccelInfo) :
  (Encoding.CRF_MAP !! quality = None →
     Encoding._get_encoder_args codec quality container video_bitrate hw_info
     = Encoding._get_encoder_args codec "medium" container video_bitrate hw_info)
  ∧ (chosen_encoder codec hw_info ∈ ["h264_amf"; "h264_vaapi"; "libaom-av1"] →
       Encoding._get_encoder_args codec quality container video_bitrate hw_info
       = Encoding._get_encoder_args codec quality' container video_bitrate hw_info).
Proof.
  split.
  - intros Hq. unfold Encoding._get_encoder_args. by rewrite Hq.
  - unfold chosen_encoder, Encoding._get_encoder_args.
    set (enc := if negb _ then _ else _).
    assert (Henc : enc = if Encoding.available hw_info then Encoding.encoder hw_info
                         else default "libx264" (Encoding.codec_map !! codec)).
    { subst enc. by destruct (Encoding.available hw_info). }
    rewrite <- Henc. clearbody enc. clear Henc.
    intros Hin. repeat (apply elem_of_cons in Hin as [->|Hin]); [done | done | done |].
    by apply elem_of_nil in Hin.
Qed.

Lemma quality_fallback_and_blind_spots_witness :
  Encoding._get_encoder_args "av1" "ultra" "webm" None Encoding.no_hw
  = Encoding._get_encoder_args "av1" "medium" "webm" None Encoding.no_hw
  ∧ Encoding._get_encoder_args "av1" "ultra" "webm" None Encoding.no_hw
    = Encoding._get_encoder_args "av1" "low" "webm" None Encoding.no_hw.
Proof.
  split.
  - apply (proj1 (quality_fallback_and_blind_spots "av1" "ultra" "low" "webm" None
                    Encoding.no_hw)).
    vm_compute. reflexivity.
  - apply (proj2 (quality_fallback_and_blind_spots "av1" "ultra" "low" "webm" None
                    Encoding.no_hw)).
    vm_compute. apply list_elem_of_further, list_elem_of_further, list_elem_of_here.
Defined.

(** * Paths: where compose puts the video, and where finalize looks *)

Lemma rfind_from_app (c : ascii) (s1 s2 : string) (i acc : Z) :
  posixpath.rfind_from c (s1 ++ s2) i acc
  = posixpath.rfind_from c s2 (i + Z.of_nat (String.length s1))
      (posixpath.rfind_from c s1 i acc).
Proof.
  revert i acc. induction s1 as [|a s1 IH]; intros i acc; simpl.
  { by rewrite Z.add_0_r. }
  rewrite IH. f_equal. lia.
Qed.

Lemma rfind_from_lacks (c : ascii) (s : string) (i acc : Z) :
  lacks c s = true → posixpath.rfind_from c s i acc = acc.
Proof.
  revert i acc. induction s as [|a s IH]; intros i acc H; simpl in *; [done |].
  apply andb_true_iff in H as [Ha Hs]. apply negb_true_iff in Ha.
  rewrite Ha. by apply IH.
Qed.

(** The last occurrence of [c], when none follows it. *)
Lemma rfind_last (c : ascii) (s1 s2 : string) :
  lacks c s2 = true →
  posixpath.rfind c (s1 ++ String c s2) = Z.of_nat (String.length s1).
Proof.
  intros H. unfold posixpath.rfind. rewrite rfind_from_app. simpl.
  rewrite Ascii.eqb_refl. by rewrite rfind_from_lacks.
Qed.

Lemma string_app_cons (a : ascii) (s1 s2 : string) :
  String.append (String a s1) s2 = String a (String.append s1 s2).
Proof. reflexivity. Qed.

Lemma substring_app_prefix (s1 s2 : string) :
  substring 0 (String.length s1) (String.append s1 s2) = s1.
Proof.
  induction s1 as [|a s1 IH]; [by destruct s2 |].
  rewrite string_app_cons. simpl. by f_equal.
Qed.

Lemma substring_app_skip (s1 s2 : string) (n : nat) :
  substring (String.length s1) n (String.append s1 s2) = substring 0 n s2.
Proof. induction s1 as [|a s1 IH]; [done |]. rewrite string_app_cons. by simpl. Qed.

Lemma substring_all (s : string) : substring 0 (String.length s) s = s.
Proof. induction s as [|a s IH]; simpl; [done | by f_equal]. Qed.

Lemma string_app_assoc (s1 s2 s3 : string) :
  String.append (String.append s1 s2) s3 = String.append s1 (String.append s2 s3).
Proof.
  induction s1 as [|a s1 IH]; [done |]. rewrite !string_app_cons. by f_equal.
Qed.

Lemma string_app_nil_r (s : string) : String.append s "" = s.
Proof. induction s as [|a s IH]; [done |]. rewrite string_app_cons. by f_equal. Qed.

Lemma string_app_length (s1 s2 : string) :
  String.length (String.append s1 s2) = (String.length s1 + String.length s2)%nat.
Proof.
  induction s1 as [|a s1 IH]; [done |]. rewrite string_app_cons. simpl. by f_equal.
Qed.

Lemma rev_app_app (s1 s2 acc : string) :
  String.rev_app (String.append s1 s2) acc = String.rev_app s2 (String.rev_app s1 acc).
Proof.
  revert acc. induction s1 as [|a s1 IH]; intros acc; [done |].
  rewrite string_app_cons. simpl. apply IH.
Qed.

Lemma rev_app_rev_app (s1 s2 s3 : string) :
  String.rev_app (String.rev_app s1 s2) s3 = String.rev_app s2 (String.append s1 s3).
Proof.
  revert s2 s3. induction s1 as [|a s1 IH]; intros s2 s3; [done |].
  simpl. by rewrite IH.
Qed.

Lemma rev_app_acc (s acc1 acc2 : string) :
  String.rev_app s (String.append acc1 acc2)
  = String.append (String.rev_app s acc1) acc2.
Proof.
  revert acc1. induction s as [|a s IH]; intros acc1; simpl; [done |].
  apply (IH (String a acc1)).
Qed.

Lemma string_rev_involutive (s : string) : String.rev (String.rev s) = s.
Proof.
  unfold String.rev. rewrite rev_app_rev_app. simpl. apply string_app_nil_r.
Qed.

Lemma string_rev_cons (a : ascii) (r : string) :
  String.rev (String a r) = String.append (String.rev r) (String a "").
Proof. unfold String.rev. simpl. apply (rev_app_acc r "" (String a "")). Qed.

Lemma all_char_app (c : ascii) (s1 s2 : string) :
  posixpath.all_char c (String.append s1 s2)
  = posixpath.all_char c s1 && posixpath.all_char c s2.
Proof.
  induction s1 as [|a s1 IH]; [done |].
  rewrite string_app_cons. simpl. rewrite IH. by rewrite andb_assoc.
Qed.

(** A directory name that is not empty and does not end in a slash ends in
    another character. *)
Lemma last_char (dir : string) :
  dir ≠ "" → posixpath.endswith_sep dir = false →
  ∃ d a, dir = String.append d (String a "") ∧ Ascii.eqb a posixpath.sep = false.
Proof.
  intros Hne Hend. unfold posixpath.endswith_sep in Hend.
  destruct (String.rev dir) as [|a r] eqn:Hrev.
  { destruct Hne. by rewrite <- (string_rev_involutive dir), Hrev. }
  exists (String.rev r), a. split; [| done].
  by rewrite <- (string_rev_involutive dir), Hrev, string_rev_cons.
Qed.

Lemma lacks_app (c : ascii) (s1 s2 : string) :
  lacks c (String.append s1 s2) = lacks c s1 && lacks c s2.
Proof.
  induction s1 as [|a s1 IH]; [done |].
  rewrite string_app_cons. simpl. rewrite IH. by rewrite andb_assoc.
Qed.

Lemma join_plain (dir name : string) :
  dir ≠ "" → posixpath.endswith_sep dir = false →
  posixpath.startswith_sep name = false →
  posixpath.join dir name = String.append dir (String "/" name).
Proof.
  intros Hne Hend Hstart. unfold posixpath.join. rewrite Hstart, Hend.
  by rewrite (proj2 (String.eqb_neq dir "") Hne).
Qed.

Lemma string_snoc_app (s1 s2 : string) (a : ascii) :
  String.append s1 (String a s2) = String.append (String.append s1 (String a "")) s2.
Proof. by rewrite string_app_assoc. Qed.

Lemma dirname_of_join (dir name : string) :
  dir ≠ "" → posixpath.endswith_sep dir = false →
  lacks posixpath.sep name = true →
  posixpath.dirname (String.append dir (String "/" name)) = dir.
Proof.
  intros Hne Hend Hname. unfold posixpath.dirname.
  change "/"%char with posixpath.sep.
  rewrite (rfind_last posixpath.sep dir name Hname).
  unfold posixpath.take.
  replace (Z.to_nat (Z.of_nat (String.length dir) + 1))
    with (String.length (String.append dir (String posixpath.sep ""))).
  2:{ rewrite string_app_length. simpl. lia. }
  rewrite (string_snoc_app dir name), substring_app_prefix.
  destruct (last_char dir Hne Hend) as (d & a & -> & Ha).
  rewrite !all_char_app. simpl. rewrite Ha, andb_false_r. simpl.
  unfold posixpath.rstrip, String.rev.
  rewrite !rev_app_app. simpl. rewrite Ha.
  change (String a (String.rev_app d ""))
    with (String.rev_app (String a "") (String.rev_app d "")).
  rewrite <- rev_app_app.
  apply (string_rev_involutive (String.append d (String a ""))).
Qed.

Lemma splitext_of_join (dir stem e : string) :
  lacks posixpath.sep stem = true →
  lacks posixpath.sep e = true →
  lacks posixpath.extsep e = true →
  posixpath.all_char posixpath.extsep stem = false →
  posixpath.splitext_ext
    (String.append dir (String "/" (String.append stem (String "." e))))
  = String "." e.
Proof.
  intros Hstem Hes He Hdots. unfold posixpath.splitext_ext.
  change "/"%char with posixpath.sep. change "."%char with posixpath.extsep.
  rewrite (rfind_last posixpath.sep dir).
  2:{ rewrite lacks_app. simpl. by rewrite Hstem, Hes. }
  set (pre := String.append dir (String posixpath.sep stem)).
  assert (Hp : String.append dir
                 (String posixpath.sep (String.append stem (String posixpath.extsep e)))
               = String.append pre (String posixpath.extsep e)).
  { subst pre. by rewrite string_app_assoc. }
  rewrite Hp, (rfind_last posixpath.extsep pre e He).
  assert (Hlen : String.length pre = S (String.length dir + String.length stem)).
  { subst pre. rewrite string_app_length. simpl. lia. }
  rewrite Hlen.
  destruct (Z.ltb_spec (Z.of_nat (String.length dir))
              (Z.of_nat (S (String.length dir + String.length stem)))); [| lia].
  replace (Z.to_nat (Z.of_nat (String.length dir) + 1))
    with (String.length (String.append dir (String posixpath.sep ""))).
  2:{ rewrite string_app_length. simpl. lia. }
  replace (Z.to_nat (Z.of_nat (S (String.length dir + String.length stem))
                     - (Z.of_nat (String.length dir) + 1)))
    with (String.length stem) by lia.
  assert (Hstemsub : substring (String.length (String.append dir (String posixpath.sep "")))
                       (String.length stem) (String.append pre (String posixpath.extsep e))
                     = stem).
  { rewrite <- Hp.
    rewrite (string_snoc_app dir (String.append stem (String posixpath.extsep e))
               posixpath.sep).
    rewrite substring_app_skip. apply substring_app_prefix. }
  rewrite Hstemsub, Hdots.
  unfold posixpath.drop. rewrite Nat2Z.id, <- Hlen.
  rewrite string_app_length.
  replace (String.length pre + String.length (String posixpath.extsep e)
           - String.length pre)%nat
    with (String.length (String posixpath.extsep e)) by lia.
  rewrite substring_app_skip. apply substring_all.
Qed.

Lemma ext_of_shape (container : string) :
  ∃ e, ext_of container = String "." e
       ∧ lacks posixpath.sep e = true
       ∧ lacks posixpath.extsep e = true.
Proof.
  unfold ext_of.
  destruct (String.eqb container "mp4"); [by exists "mp4" |].
  destruct (String.eqb container "webm"); [by exists "webm" |].
  destruct (String.eqb container "mov"); [by exists "mov" |].
  destruct (String.eqb container "mkv"); [by exists "mkv" | by exists "mp4"].
Qed.

(** The output path and the video-only path that compose builds. *)
Lemma compose_paths (dir jid container : string) :
  dir ≠ "" → posixpath.endswith_sep dir = false →
  lacks posixpath.sep jid = true →
  ∃ e,
    ext_of container = String "." e
    ∧ Encoding.compose_output_path dir jid container
      = String.append dir
          (String "/" (String.append (String.append "export_" jid) (String "." e)))
    ∧ Encoding.compose_video_only_path dir jid container
      = String.append dir
          (String "/" (String.append (String.append "video_" jid) (String "." e)))
    ∧ posixpath.dirname (Encoding.compose_output_path dir jid container) = dir
    ∧ posixpath.splitext_ext (Encoding.compose_output_path dir jid container)
      = String "." e.
Proof.
  intros Hne Hend Hjid.
  destruct (ext_of_shape container) as (e & He & Hes & Hed).
  exists e. split; [done |].
  assert (Hout : Encoding.compose_output_path dir jid container
                 = String.append dir
                     (String "/" (String.append (String.append "export_" jid)
                                    (String "." e)))).
  { unfold Encoding.compose_output_path. rewrite He.
    rewrite join_plain by done. by rewrite string_app_assoc. }
  assert (Hvid : Encoding.compose_video_only_path dir jid container
                 = String.append dir
                     (String "/" (String.append (String.append "video_" jid)
                                    (String "." e)))).
  { unfold Encoding.compose_video_only_path. rewrite He.
    rewrite join_plain by done. by rewrite string_app_assoc. }
  split_and!; try done.
  - rewrite Hout. apply dirname_of_join; [done | done |].
    rewrite !lacks_app, Hjid. simpl. by rewrite Hes.
  - rewrite Hout. apply splitext_of_join; [| done | done |].
    + by rewrite lacks_app, Hjid.
    + by rewrite all_char_app.
Qed.

(** X21.  Finalize looks for the encoder's output where compose told the
    encoder to write it.  For a job created by compose in a temp directory
    whose name is not empty and does not end in a slash, under an
    identifier without a slash: the video-only path that finalize derives
    from the job's output path is the path compose gave as the last
    argument of the encoder command, and it differs from the output
    path. *)
Theorem finalize_finds_the_encoder_output (req : ComposeRequest) (env : ComposeEnv)
    (st st' : State) (jid out ffmpeg_path : string) (s : JobStatus)
    (hw_info : Encoding.HWAccelInfo) :
  ffmpeg_export_compose req env st = (r_compose jid s out, st') →
  ce_output_dir env ≠ "" →
  posixpath.endswith_sep (ce_output_dir env) = false →
  lacks posixpath.sep (ce_uuid env) = true →
  ∃ job,
    compose_jobs st' !! jid = Some job
    ∧ video_only_path job
      = Encoding.compose_video_only_path (ce_output_dir env) jid (cr_container req)
    ∧ last (Encoding.compose_args ffmpeg_path req hw_info (ce_output_dir env) jid)
      = Some (video_only_path job)
    ∧ video_only_path job ≠ output_path job.
Proof.
  unfold ffmpeg_export_compose. intros H Hne Hend Hjid.
  destruct (cr_totalFrames req <=? 0); [discriminate |].
  destruct (negb (ce_ffmpeg_available env)); [discriminate |].
  destruct (ce_process env) as [p|]; [| discriminate].
  injection H as <- _ <- <-.
  eexists. split; [simpl; apply lookup_insert_eq |].
  destruct (compose_paths (ce_output_dir env) (ce_uuid env) (cr_container req)
              Hne Hend Hjid) as (e & He & Hout & Hvid & Hdir & Hext).
  unfold Encoding.compose_output_path in *.
  assert (Hv : video_only_path
                 {| job_id := ce_uuid env; width := cr_width req; height := cr_height req;
                    fps := cr_fps req; total_frames := cr_totalFrames req;
                    codec := cr_codec req; quality := cr_quality req;
                    container := cr_container req;
                    video_bitrate := cr_videoBitrate req;
                    audio_bitrate := cr_audioBitrate req;
                    output_path :=
                      posixpath.join (ce_output_dir env)
                        ("export_" ++ ce_uuid env ++ ext_of (cr_container req))%string;
                    audio_path := None; process := Some p;
                    frames_received := 0; status := st_encoding; error := None;
                    created_at := ce_now env; frame_buffer := ∅;
                    next_frame_to_write := 0; encoder_fps := 0%Q |}
               = Encoding.compose_video_only_path (ce_output_dir env) (ce_uuid env)
                   (cr_container req)).
  { unfold video_only_path. cbn [output_path job_id].
    rewrite Hdir, Hext. unfold Encoding.compose_video_only_path. by rewrite He. }
  rewrite Hv. split_and!.
  - done.
  - unfold Encoding.compose_args. by rewrite !last_app.
  - cbn [output_path]. rewrite Hvid, Hout. intros Heq.
    apply (inj (String.append (ce_output_dir env))) in Heq. discriminate.
Qed.

Lemma finalize_finds_the_encoder_output_witness :
  ∃ job,
    compose_jobs (ffmpeg_export_compose Sample.request Sample.env Sample.empty).2 !! "j1"
    = Some job
    ∧ video_only_path job
      = Encoding.compose_video_only_path (ce_output_dir Sample.env) "j1"
          (cr_container Sample.request)
    ∧ last (Encoding.compose_args "ffmpeg" Sample.request Encoding.no_hw
              (ce_output_dir Sample.env) "j1")
      = Some (video_only_path job)
    ∧ video_only_path job ≠ output_path job.
Proof.
  apply (finalize_finds_the_encoder_output Sample.request Sample.env Sample.empty
           (ffmpeg_export_compose Sample.request Sample.env Sample.empty).2
           "j1" Sample.out "ffmpeg" st_encoding Encoding.no_hw).
  - vm_compute. reflexivity.
  - discriminate.
  - reflexivity.
  - reflexivity.
Defined.

Example compose_args_example :
  Encoding.compose_args "ffmpeg" Sample.request Encoding.no_hw
    "/tmp/freecut_export_ab" "j1"
  = ["ffmpeg"; "-y"; "-hide_banner"; "-f"; "rawvideo"; "-pix_fmt"; "rgba";
     "-s"; "4x4"; "-r"; "30"; "-i"; "pipe:0";
     "-c:v"; "libx264"; "-crf"; "18"; "-preset"; "fast"; "-pix_fmt"; "yuv420p";
     "-movflags"; "+faststart"; "-an"; "-progress"; "pipe:1"; Sample.video].
Proof. vm_compute. reflexivity. Qed.

(** * More on the buffer and on the files a job owns *)

Lemma held_back (st : State) (jid : string) (job : ComposeExportJob) (idx : Z) (d : bytes) :
  jid ≠ "" →
  compose_jobs st !! jid = Some job →
  status job = st_encoding →
  process_has_stdin job = true →
  len d = expected_size job →
  drained job →
  next_frame_to_write job < idx →
  step (submission jid (idx, d)) st
  = (r_frame (frames_received job + 1),
     put_job jid (set_frames_received (frames_received job + 1)
                    (set_frame_buffer (<[idx := d]> (frame_buffer job)) job)) st).
Proof.
  intros Hne Hjob Hst Hp Hlen Hdr Hidx. simpl.
  unfold ffmpeg_export_frame. cbn [fr_jobId fr_frameIndex fr_data].
  rewrite (find_job_lookup st jid job Hne Hjob). simpl.
  rewrite bool_decide_eq_true_2 by done. rewrite Hp. simpl.
  rewrite Hlen, Z.eqb_refl. simpl.
  unfold buffer_and_write. simpl.
  destruct (size (<[idx := d]> (frame_buffer job))) as [|fuel]; simpl; [done |].
  rewrite lookup_insert_ne by lia. unfold drained in Hdr. by rewrite Hdr.
Qed.

(** X22.  When the same index is submitted twice before it can be written
    (it is ahead of the counter), both submissions are accepted and
    counted, the second payload replaces the first in the buffer, and
    nothing is written to the encoder: the last submission wins. *)
Theorem last_submission_wins (st : State) (jid : string) (job : ComposeExportJob)
    (idx : Z) (d1 d2 : bytes) :
  jid ≠ "" →
  compose_jobs st !! jid = Some job →
  status job = st_encoding →
  process_has_stdin job = true →
  len d1 = expected_size job →
  len d2 = expected_size job →
  drained job →
  next_frame_to_write job < idx →
  ∃ st2 job2,
    run [submission jid (idx, d1); submission jid (idx, d2)] st
    = ([r_frame (frames_received job + 1); r_frame (frames_received job + 2)], st2)
    ∧ compose_jobs st2 !! jid = Some job2
    ∧ frame_buffer job2 = <[idx := d2]> (frame_buffer job)
    ∧ stdin_log job2 = stdin_log job
    ∧ next_frame_to_write job2 = next_frame_to_write job.
Proof.
  intros Hne Hjob Hst Hp Hlen1 Hlen2 Hdr Hidx.
  cbn [run].
  rewrite (held_back st jid job idx d1) by done.
  set (job1 := set_frames_received _ _).
  rewrite (held_back (put_job jid job1 st) jid job1 idx d2); try done.
  - eexists _, _. split.
    { f_equal. f_equal. f_equal. simpl. f_equal. lia. }
    simpl. rewrite lookup_insert_eq. split; [reflexivity |].
    split_and!; try done. apply insert_insert_eq.
  - simpl. apply lookup_insert_eq.
  - unfold drained. simpl. rewrite lookup_insert_ne by lia. exact Hdr.
Qed.

Lemma last_submission_wins_witness :
  ∃ st2 job2,
    run [submission "j1" (2, Sample.f1); submission "j1" (2, Sample.f2)] Sample.created
    = ([r_frame (frames_received Sample.job + 1);
        r_frame (frames_received Sample.job + 2)], st2)
    ∧ compose_jobs st2 !! "j1" = Some job2
    ∧ frame_buffer job2 = <[2 := Sample.f2]> (frame_buffer Sample.job)
    ∧ stdin_log job2 = stdin_log Sample.job
    ∧ next_frame_to_write job2 = next_frame_to_write Sample.job.
Proof.
  apply (last_submission_wins Sample.created "j1" Sample.job 2 Sample.f1 Sample.f2).
  - discriminate.
  - reflexivity.
  - reflexivity.
  - reflexivity.
  - reflexivity.
  - reflexivity.
  - reflexivity.
  - reflexivity.
Defined.

(** X23.  Cancel removes the job's output file and its audio file, and no
    other file: after it neither of the two exists, and every other path,
    the video-only file the encoder writes included, holds what it held
    before. *)
Theorem cancel_deletes_output_and_audio_only (st : State) (jid : string)
    (job : ComposeExportJob) :
  compose_jobs st !! jid = Some job →
  output_path job ≠ "" →
  let st' := (ffmpeg_export_cancel jid st).2 in
  files st' !! output_path job = None
  ∧ (∀ a, audio_path job = Some a → a ≠ "" → files st' !! a = None)
  ∧ ∀ path, path ≠ output_path job → audio_path job ≠ Some path →
            files st' !! path = files st !! path.
Proof.
  intros Hjob Hout st'.
  assert (Hfiles : files st' = _cleanup_job_files job (files st)).
  { subst st'. unfold ffmpeg_export_cancel. rewrite Hjob. simpl.
    destruct (process job) as [p|]; [| done]. by destruct (returncode p). }
  rewrite Hfiles. unfold _cleanup_job_files. split_and!.
  - destruct (decide (audio_path job = Some (output_path job))) as [Ha|Ha].
    + rewrite Ha. by apply unlink_if_exists_gone.
    + rewrite unlink_if_exists_other by done. by apply unlink_if_exists_gone.
  - intros a Ha Hane. rewrite Ha. by apply unlink_if_exists_gone.
  - intros path Hp Ha. rewrite !unlink_if_exists_other; [done | congruence | done].
Qed.

Lemma cancel_deletes_output_and_audio_only_witness :
  let st0 := set_files (<[Sample.video := Sample.video_bytes]> (files Sample.finished))
               Sample.finished in
  let st' := (ffmpeg_export_cancel "j1" st0).2 in
  files st' !! output_path Sample.done_job = None
  ∧ (∀ a, audio_path Sample.done_job = Some a → a ≠ "" → files st' !! a = None)
  ∧ ∀ path, path ≠ output_path Sample.done_job → audio_path Sample.done_job ≠ Some path →
            files st' !! path = files st0 !! path.
Proof.
  apply (cancel_deletes_output_and_audio_only
           (set_files (<[Sample.video := Sample.video_bytes]> (files Sample.finished))
              Sample.finished) "j1" Sample.done_job).
  - vm_compute. reflexivity.
  - vm_compute. discriminate.
Defined.

(** * Media upload *)

Example upload_example :
  Media.upload_media Media.ascii_alnum "/tmp/freecut_media_x"
    (Media.only_under "/tmp/freecut_media_x") Media.clip Media.nothing
  = (Media.up_saved "m1" "/tmp/freecut_media_x/m1_myclip1.mp4" 2,
     {| Media.uploaded_media := {["m1" := "/tmp/freecut_media_x/m1_myclip1.mp4"]};
        Media.media_files :=
          {["/tmp/freecut_media_x/m1_myclip1.mp4" := [Byte.x01; Byte.x02]]} |}).
Proof. vm_compute. reflexivity. Qed.

(** A media id with a separator in it names a directory that is not there:
    the upload raises, nothing is registered, and a second upload fares no
    better. *)
Example upload_into_missing_directory :
  let up := Media.upload_media Media.ascii_alnum "/tmp/freecut_media_x"
              (Media.only_under "/tmp/freecut_media_x") in
  up Media.nested Media.nothing = (Media.up_unhandled, Media.nothing)
  ∧ up Media.nested (up Media.nested Media.nothing).2
    = (Media.up_unhandled, Media.nothing).
Proof. vm_compute. done. Qed.




(** * Writes never skip a gap *)

(** X25.  For a job as created and any accepted submissions of distinct,
    non-negative indices, complete or not: the encoder has been given
    exactly the frames [0 .. next_frame_to_write - 1], each once and in
    index order; [next_frame_to_write] is the least index not submitted;
    and the buffer holds exactly the submitted indices above it, with
    their payloads.  No frame is written before all the frames below
    it. *)
Theorem writes_never_skip_a_gap (st st' : State) (jid : string)
    (job : ComposeExportJob) (subs : list (Z * bytes)) (rs : list Response) :
  compose_jobs st !! jid = Some job →
  next_frame_to_write job = 0 →
  frame_buffer job = ∅ →
  NoDup subs.*1 →
  Forall (λ s, 0 ≤ s.1) subs →
  run (map (submission jid) subs) st = (rs, st') →
  Forall accepted rs →
  ∃ job',
    compose_jobs st' !! jid = Some job'
    ∧ stdin_log job'
      = (stdin_log job
         ++ map (payload_at (list_to_map subs)) (seqZ 0 (next_frame_to_write job')))%list
    ∧ 0 ≤ next_frame_to_write job'
    ∧ (∀ i, 0 ≤ i < next_frame_to_write job' → i ∈ subs.*1)
    ∧ (next_frame_to_write job' ∉ subs.*1)
    ∧ ∀ i, frame_buffer job' !! i
           = (if decide (next_frame_to_write job' < i)
              then (list_to_map subs : gmap Z bytes) !! i else None).
Proof.
  intros Hjob Hnext Hbuf Hnd Hpos Hrun Hacc.
  set (M := list_to_map subs : gmap Z bytes).
  assert (Hinit : reassembled M ∅ (stdin_log job) job).
  { unfold reassembled. rewrite Hnext, Hbuf. split_and!.
    - done.
    - intros i Hi. lia.
    - intros i. rewrite lookup_empty. split; [by intros [? ?] | by intros [?%elem_of_empty _]].
    - intros i d. by rewrite lookup_empty.
    - by rewrite seqZ_nil, app_nil_r by done. }
  assert (Hdr : drained job) by (unfold drained; by rewrite Hbuf, lookup_empty).
  destruct (reassembled_run M (stdin_log job) jid subs ∅ st st' rs job)
    as (job' & Hjob' & Hinv & Hdr' & _); try done.
  { intros s Hs. split_and!.
    - apply elem_of_list_to_map_1; [done |]. by destruct s.
    - by apply (proj1 (Forall_forall _ _) Hpos).
    - apply not_elem_of_empty. }
  destruct Hinv as (H0 & Hbelow & Hdom & Hval & Hwritten).
  assert (Hmem : ∀ i, i ∈ (list_to_set subs.*1 ∪ ∅ : gset Z) ↔ i ∈ subs.*1).
  { intros i. rewrite elem_of_union, elem_of_list_to_set, elem_of_empty. tauto. }
  assert (Hnot : next_frame_to_write job' ∉ subs.*1).
  { intros Hin. apply Hmem in Hin.
    assert (is_Some (frame_buffer job' !! next_frame_to_write job')) as [d Hd].
    { apply Hdom. split; [done | lia]. }
    unfold drained in Hdr'. congruence. }
  exists job'. split_and!; try done.
  - intros i Hi. by apply Hmem, Hbelow.
  - intros i. destruct (decide (next_frame_to_write job' < i)) as [Hlt|Hge].
    + destruct (frame_buffer job' !! i) as [d|] eqn:Hi; [symmetry; by apply (Hval i d) |].
      destruct (M !! i) as [d|] eqn:HM; [| done].
      assert (is_Some (frame_buffer job' !! i)) as [d' Hd']; [| congruence].
      apply Hdom. split; [| lia]. apply Hmem.
      apply elem_of_list_to_map_2 in HM. apply list_elem_of_fmap. by exists (i, d).
    + destruct (frame_buffer job' !! i) as [d|] eqn:Hi; [| done].
      assert (i ∈ (list_to_set subs.*1 ∪ ∅ : gset Z) ∧ next_frame_to_write job' ≤ i)
        as [Hin Hle] by (apply Hdom; by eexists).
      assert (i = next_frame_to_write job') as -> by lia.
      unfold drained in Hdr'. congruence.
Qed.

Lemma writes_never_skip_a_gap_witness :
  let subs := [(3, Sample.f2); (0, Sample.f0); (1, Sample.f1)] in
  let r_st := run (map (submission "j1") subs) Sample.created in
  ∃ job',
    compose_jobs r_st.2 !! "j1" = Some job'
    ∧ stdin_log job'
      = (stdin_log Sample.job
         ++ map (payload_at (list_to_map subs)) (seqZ 0 (next_frame_to_write job')))%list
    ∧ 0 ≤ next_frame_to_write job'
    ∧ (∀ i, 0 ≤ i < next_frame_to_write job' → i ∈ subs.*1)
    ∧ (next_frame_to_write job' ∉ subs.*1)
    ∧ ∀ i, frame_buffer job' !! i
           = (if decide (next_frame_to_write job' < i)
              then (list_to_map subs : gmap Z bytes) !! i else None).
Proof.
  intros subs r_st.
  apply (writes_never_skip_a_gap Sample.created r_st.2 "j1" Sample.job subs r_st.1).
  - reflexivity.
  - reflexivity.
  - reflexivity.
  - change (subs.*1) with [3; 0; 1].
    apply (bool_decide_unpack (NoDup [3; 0; 1])). vm_compute. exact I.
  - repeat constructor; simpl; lia.
  - apply surjective_pairing.
  - vm_compute. repeat constructor.
Defined.

Example gap_scenario :
  let r_st := run (map (submission "j1") [(3, Sample.f2); (0, Sample.f0); (1, Sample.f1)])
                  Sample.created in
  (stdin_log <$> Sample.the_job r_st.2) = Some [Sample.f0; Sample.f1]
  ∧ (next_frame_to_write <$> Sample.the_job r_st.2) = Some 2.
Proof. vm_compute. done. Qed.
